(** * Video preview generation: sample planner and Lambda handler

  Shallow embedding of the preview pipeline of the video-processing
  function: the sample planner ([plan], the [calculate_sample_seconds] of
  the [preview] module), in exact arithmetic and in the binary64
  arithmetic of Python's [float], the S3-triggered entry point
  [lambda_handler] of [lambda_function.py], and the start of the
  performance harness [test.py]. *)

From Stdlib Require Import ZArith QArith Qminmax Lia Lqa List Ascii String.
From Stdlib Require Import Sorted Permutation.
From stdpp Require Import gmap strings.
From Stdlib Require Import Floats.SpecFloat.
Import ListNotations.

Local Open Scope Q_scope.

(** ** Results of fallible computations *)

Inductive result (E A : Type) : Type :=
| Ok (a : A)
| Err (e : E).
Arguments Ok {E A} a.
Arguments Err {E A} e.

(** * The sample planner *)

Module Planner.

Inductive plan_error : Type := InvalidInput.

(** A [SamplePlan] is an ordered sequence of start timestamps, in seconds.
    Timestamps are exact rationals here. *)
Definition SamplePlan : Type := list Q.

Definition clamp (lo hi x : Q) : Q := Qmax lo (Qmin x hi).

Definition usable_span (duration sample_duration : Q) : Q :=
  duration - sample_duration.

(** [range(n)]: the indices [0, 1, ..., n-1]; empty when [n <= 0]. *)
Definition range (n : Z) : list Z := map Z.of_nat (seq 0 (Z.to_nat n)).

Definition Qleb (x y : Q) : bool := Qle_bool x y.

(** Modelled from the spec: the planner [calculate_sample_seconds] lives in
    the [preview] module, which is not part of the sources at hand.  The
    definition follows section 4.1: invalid inputs are refused with
    [InvalidInput]; a source no longer than one sample yields the single
    start 0; a single sample is centred in the usable span; otherwise the
    starts are [i * step] with [step = usable_span / (sample_count - 1)],
    each clamped to [[0, usable_span]]. *)
Definition plan (duration : Q) (sample_count : Z) (sample_duration : Q)
  : result plan_error SamplePlan :=
  if Qleb duration 0 || (sample_count <? 1)%Z || Qleb sample_duration 0
  then Err InvalidInput
  else if Qleb duration sample_duration then Ok [0]
  else
    let span := usable_span duration sample_duration in
    if (sample_count =? 1)%Z then Ok [span / 2]
    else
      let step := span / inject_Z (sample_count - 1) in
      Ok (map (fun i => clamp 0 span (inject_Z i * step)) (range sample_count)).

(** Timestamps are compared up to equality of fractions. *)
Definition plan_eq (p q : SamplePlan) : Prop := Forall2 Qeq p q.

Definition strictly_increasing (ts : SamplePlan) : Prop :=
  forall i j : nat, (i < j < length ts)%nat -> nth i ts 0 < nth j ts 0.

Definition within (lo hi : Q) (ts : SamplePlan) : Prop :=
  Forall (fun t => lo <= t /\ t <= hi) ts.

(** The sample taken at [t] stays inside the source. *)
Definition interval_inside (duration sample_duration t : Q) : Prop :=
  0 <= t /\ t + sample_duration <= duration.

End Planner.

(** * IEEE 754 binary64 arithmetic

    A Python [float] is a binary64 number.  Its operations are those of
    the executable IEEE 754 specification of the Standard Library, at 53
    bits of precision: every result is rounded to nearest, ties to even. *)

Module Float64.

Local Open Scope Z_scope.

Definition prec : Z := 53.
Definition emax : Z := 1024.

Definition float : Type := spec_float.

(** The binary64 numbers among the values of [float]. *)
Definition valid (x : float) : bool := valid_binary prec emax x.

(** [m * 2^e], rounded. *)
Definition scaled (m e : Z) : float := binary_normalize prec emax m e false.

(** [float(z)] of an [int].  An integer beyond the largest binary64 number
    rounds to infinity here; Python raises [OverflowError] instead. *)
Definition of_int (z : Z) : float := scaled z 0.

Definition zero : float := S754_zero false.

Definition sub : float -> float -> float := SFsub prec emax.
Definition add : float -> float -> float := SFadd prec emax.
Definition mul : float -> float -> float := SFmul prec emax.
Definition div : float -> float -> float := SFdiv prec emax.

(** [a < b] and [a <= b]; both are false when an operand is not a number. *)
Definition ltb : float -> float -> bool := SFltb.
Definition leb : float -> float -> bool := SFleb.

(** [min(a, b)] and [max(a, b)] of Python: the first argument, unless the
    second is strictly smaller (strictly larger). *)
Definition py_min (a b : float) : float := if ltb b a then b else a.
Definition py_max (a b : float) : float := if ltb a b then b else a.

End Float64.

(** * The sample planner over binary64 *)

Module Planner64.

Import Float64.
Local Open Scope Z_scope.

Definition SamplePlan : Type := list float.

(** [max(lo, min(x, hi))]. *)
Definition clamp (lo hi x : float) : float := py_max lo (py_min x hi).

Definition usable_span (duration sample_duration : float) : float :=
  sub duration sample_duration.

(** Modelled from the spec: the planner [calculate_sample_seconds] lives in
    the [preview] module, which is not part of the sources at hand.  This
    is the algorithm of section 4.1, the one of [Planner.plan], computed as
    the program computes it: durations and timestamps are binary64
    numbers, the sample count is an integer, and each subtraction,
    division and multiplication is rounded. *)
Definition plan (duration : float) (sample_count : Z) (sample_duration : float)
  : result Planner.plan_error SamplePlan :=
  if leb duration zero || (sample_count <? 1) || leb sample_duration zero
  then Err Planner.InvalidInput
  else if leb duration sample_duration then Ok [zero]
  else
    let span := usable_span duration sample_duration in
    if sample_count =? 1 then Ok [div span (of_int 2)]
    else
      let step := div span (of_int (sample_count - 1)) in
      Ok (map (fun i => clamp zero span (mul (of_int i) step))
              (Planner.range sample_count)).

Definition strictly_increasing (ts : SamplePlan) : Prop :=
  forall i j : nat, (i < j < length ts)%nat -> ltb (nth i ts zero) (nth j ts zero) = true.


Definition within (lo hi : float) (ts : SamplePlan) : Prop :=
  Forall (fun t => leb lo t = true /\ leb t hi = true) ts.

(** The sample taken at [t] stays inside the source. *)
Definition interval_inside (duration sample_duration t : float) : Prop :=
  leb zero t = true /\ leb (add t sample_duration) duration = true.

End Planner64.

(** * Notions for reasoning about rounding *)

Module Rounding.

Import Float64.
Local Open Scope Z_scope.

(** Zero of either sign, a positive number, or plus infinity. *)
Definition nonneg (x : float) : Prop :=
  match x with
  | S754_zero _ => True
  | S754_finite s _ _ => s = false
  | S754_infinity s => s = false
  | S754_nan => False
  end.

(** The number of binary digits of [m]. *)
Definition digits (m : Z) : Z := Zdigits2 m.

(** Where an exact value lies between two neighbours, from the remainder
    [r] of a division by [2^n]. *)
Definition loc_of_rem (r n : Z) : location :=
  if r =? 0 then loc_Exact else loc_Inexact (2 * r ?= 2 ^ n).

(** [mrs] is [m] shifted right by [k] places, with its rounding bits. *)
Definition shifted (m : Z) (k : Z) (mrs : shr_record) : Prop :=
  shr_m mrs = m / 2 ^ k /\
  orb (shr_r mrs) (shr_s mrs) = negb (m mod 2 ^ k =? 0) /\
  loc_of_shr_record mrs = loc_of_rem (m mod 2 ^ k) k.

(** [m / 2^n], rounded to the nearest integer, ties to even. *)
Definition rne (m n : Z) : Z :=
  round_nearest_even (m / 2 ^ n) (loc_of_rem (m mod 2 ^ n) n).

Definition emin : Z := SpecFloat.emin prec emax.
Definition fexp (k : Z) : Z := SpecFloat.fexp prec emax k.

(** The exponent at which [m * 2^e] is rounded. *)
Definition target (m e : Z) : Z := fexp (digits m + e).

(** The float of mantissa [q <= 2^prec] and exponent [E]. *)
Definition finish (q E : Z) : float :=
  if q =? 0 then S754_zero false
  else if q <? 2 ^ prec
       then (if E <=? emax - prec then S754_finite false (Z.to_pos q) E
             else S754_infinity false)
       else (if E + 1 <=? emax - prec
             then S754_finite false (Z.to_pos (2 ^ (prec - 1))) (E + 1)
             else S754_infinity false).

(** [m * 2^e], rounded to binary64. *)
Definition rounded (m e : Z) : float := finish (rne m (target m e - e)) (target m e).

(** [m1 * 2^e1 <= m2 * 2^e2], over a common exponent. *)
Definition value_le (m1 e1 m2 e2 : Z) : Prop :=
  m1 * 2 ^ (e1 - Z.min e1 e2) <= m2 * 2 ^ (e2 - Z.min e1 e2).

Definition canonical (x : float) : Prop :=
  match x with
  | S754_finite _ M E =>
      Zpos M < 2 ^ prec /\ emin <= E /\ (emin < E -> 2 ^ (prec - 1) <= Zpos M)
  | _ => True
  end.


(** The order of the non-negative floats is the lexicographic order of
    their keys. *)
Definition key (x : float) : Z * Z * Z :=
  match x with
  | S754_zero _ => (0, 0, 0)
  | S754_finite _ m e => (1, e, Zpos m)
  | S754_infinity _ => (2, 0, 0)
  | S754_nan => (3, 0, 0)
  end.



End Rounding.


(** * Python library functions used by the handler *)

Module Py.

Local Open Scope string_scope.
Local Open Scope Z_scope.

Definition is_char (c d : ascii) : bool := Ascii.eqb c d.

Fixpoint count_char (c : ascii) (s : string) : nat :=
  match s with
  | EmptyString => O
  | String d s' => (if is_char d c then 1 else 0) + count_char c s'
  end.

(** [s.split(sep)] for a one-character separator: every occurrence of the
    separator cuts, so the result has one more part than there are
    separators (and [''.split('.')] is [['']]). *)
Fixpoint split (sep : ascii) (s : string) : list string :=
  match s with
  | EmptyString => [EmptyString]
  | String d s' =>
      if is_char d sep then EmptyString :: split sep s'
      else match split sep s' with
           | [] => [String d EmptyString]
           | p :: ps => String d p :: ps
           end
  end.

(** [os.path.basename(p)] is [p[p.rfind('/') + 1:]]. *)
Fixpoint basename (p : string) : string :=
  match p with
  | EmptyString => EmptyString
  | String d p' =>
      if Nat.eqb (count_char "/" p') 0
      then (if is_char d "/" then p' else p)
      else basename p'
  end.

Fixpoint ends_with_sep (p : string) : bool :=
  match p with
  | EmptyString => false
  | String d EmptyString => is_char d "/"
  | String _ p' => ends_with_sep p'
  end.

Definition starts_with_sep (p : string) : bool :=
  match p with
  | String d _ => is_char d "/"
  | EmptyString => false
  end.

(** [os.path.join(a, b)] on POSIX, for two components. *)
Definition path_join (a b : string) : string :=
  if starts_with_sep b then b
  else if (String.length a =? 0)%nat || ends_with_sep a then a ++ b
  else a ++ "/" ++ b.

Definition lower_ascii (c : ascii) : ascii :=
  let n := nat_of_ascii c in
  if (65 <=? n)%nat && (n <=? 90)%nat then ascii_of_nat (n + 32) else c.

(** [s.lower()], on the ASCII letters. *)
Fixpoint lower (s : string) : string :=
  match s with
  | EmptyString => EmptyString
  | String d s' => String (lower_ascii d) (lower s')
  end.

Definition is_space (c : ascii) : bool :=
  let n := nat_of_ascii c in
  ((9 <=? n)%nat && (n <=? 13)%nat) || ((28 <=? n)%nat && (n <=? 32)%nat).

Fixpoint lstrip (s : string) : string :=
  match s with
  | String d s' => if is_space d then lstrip s' else s
  | EmptyString => EmptyString
  end.

Fixpoint rstrip (s : string) : string :=
  match s with
  | EmptyString => EmptyString
  | String d s' =>
      match rstrip s' with
      | EmptyString => if is_space d then EmptyString else String d EmptyString
      | r => String d r
      end
  end.

Definition strip (s : string) : string := rstrip (lstrip s).

Definition digit_of (c : ascii) : option Z :=
  let n := nat_of_ascii c in
  if (48 <=? n)%nat && (n <=? 57)%nat then Some (Z.of_nat (n - 48)) else None.

(** Digits of a decimal literal after the first one: single underscores
    are allowed between digits only. *)
Fixpoint digits_from (acc : Z) (after_underscore : bool) (s : string) : option Z :=
  match s with
  | EmptyString => if after_underscore then None else Some acc
  | String d s' =>
      match digit_of d with
      | Some v => digits_from (10 * acc + v) false s'
      | None =>
          if is_char d "_" && negb after_underscore
          then digits_from acc true s'
          else None
      end
  end.

Definition digits (s : string) : option Z :=
  match s with
  | String d s' =>
      match digit_of d with
      | Some v => digits_from v false s'
      | None => None
      end
  | EmptyString => None
  end.

(** [int(s)] for a string in base 10: surrounding white space, an optional
    sign, digits with single underscores between them.  [None] stands for
    the [ValueError] of an invalid literal.  Strings are byte strings here,
    so only the ASCII digits and white space are recognised. *)
Definition int (s : string) : option Z :=
  match strip s with
  | String "-" s' => Z.opp <$> digits s'
  | String "+" s' => digits s'
  | s' => digits s'
  end.

(** [os.getenv(name)] and [os.getenv(name, default)]. *)
Definition getenv (env : gmap string string) (name : string) : option string :=
  env !! name.

Definition getenv_default (env : gmap string string) (name dflt : string) : string :=
  default dflt (env !! name).

End Py.

(** * The Lambda entry point *)

Module Handler.

Local Open Scope string_scope.

(** ** Exceptions

    Only subclasses of [Exception] occur. *)

Inductive value_error : Type :=
| InvalidIntLiteral (literal : string)
| InvalidFloatLiteral (literal : string)
| UnpackMismatch (expected got : nat).

Inductive exn : Type :=
| FfmpegError (cmd stderr : string)      (* ffmpeg.Error, with its [stderr] attribute *)
| ValueError (why : value_error)
| KeyError (key : string)
| OtherError (class message : string).   (* OSError, ClientError, ... *)

(** [isinstance(e, ffmpeg.Error)] *)
Definition is_ffmpeg_error (e : exn) : bool :=
  match e with FfmpegError _ _ => true | _ => false end.

(** [isinstance(e, Exception)] *)
Definition is_exception (e : exn) : bool := true.

(** ** Module-level configuration (lines 12-18) *)

Record Config : Type := {
  samples : Z;
  sample_duration : Z;
  scale : option string;
  format : string;
  s3_output_prefix : string;
  debug : bool
}.

Definition int_or_raise (s : string) : result exn Z :=
  match Py.int s with
  | Some n => Ok n
  | None => Err (ValueError (InvalidIntLiteral s))
  end.

Definition load_config (env : gmap string string) : result exn Config :=
  match int_or_raise (Py.getenv_default env "samples" "4") with
  | Err e => Err e
  | Ok n =>
      match int_or_raise (Py.getenv_default env "sample_duration" "2") with
      | Err e => Err e
      | Ok d =>
          Ok {| samples := n;
                sample_duration := d;
                scale := Py.getenv env "scale";
                format := Py.getenv_default env "format" "mp4";
                s3_output_prefix := Py.getenv_default env "s3_output_prefix" "output";
                debug := String.eqb (Py.lower (Py.getenv_default env "debug" "false")) "true" |}
      end
  end.

(** ** The invocation event: [event['Records'][0]['s3']]

    A well-formed S3 notification: the bucket name and the (URL-encoded)
    object key of its first record. *)

Record S3Event : Type := {
  bucket_name : string;
  object_key : string
}.

Record Response : Type := {
  statusCode : Z;
  message : string;
  input_key : string;
  output_key : string;
  bucket : string
}.

(** ** The collaborators

    The storage client, the media engine, the file system and the
    [preview] module are outside the handler: each is a function from the
    arguments of the call to its outcome. *)

Record World : Type := {
  unquote_plus : string -> string;
  NamedTemporaryFile : result exn string;
  download_file : string -> string -> string -> result exn unit;
  probe : string -> result exn (gmap string (gmap string string));
  float : string -> option Q;
  calculate_sample_seconds : Q -> Z -> Z -> result exn (list Q);
  generate_video_preview :
    string -> string -> Z -> list Q -> option string -> string -> bool ->
    result exn unit;
  upload_file : string -> option string -> string -> result exn unit;
  path_exists : string -> bool;
  remove : string -> result exn unit
}.

(** ** Observable effects *)

Inductive level : Type := INFO | WARNING | ERROR.

Inductive text : Type :=
| Text (s : string)
| WithExn (prefix : string) (e : exn).   (* f"{prefix}{e}" *)

Inductive effect : Type :=
| Log (lv : level) (msg : text)
| TempFile
| Download (bucket key dest : string)
| Probe (path : string)
| Plan (duration : Q) (samples sample_duration : Z)
| Generate (input output : string) (sample_duration : Z) (starts : list Q)
           (scale : option string) (format : string) (quiet : bool)
| Upload (file : string) (bucket : option string) (key : string)
| Exists (path : string)
| Remove (path : string).

(** ** The handler monad: a trace of effects, the local variable [e] of
    the [except ... as e] clauses, and exceptions. *)

Record state : Type := {
  trace : list effect;
  local_e : option exn
}.

Definition M (A : Type) : Type := state -> result exn A * state.

Definition ret {A} (a : A) : M A := fun s => (Ok a, s).

Definition raise {A} (e : exn) : M A := fun s => (Err e, s).

Definition bind {A B} (m : M A) (k : A -> M B) : M B :=
  fun s =>
    match m s with
    | (Ok a, s') => k a s'
    | (Err e, s') => (Err e, s')
    end.

Definition lift {A} (r : result exn A) : M A := fun s => (r, s).

Definition emit (ev : effect) : M unit :=
  fun s => (Ok tt, {| trace := trace s ++ [ev]; local_e := local_e s |}).

Definition set_e (o : option exn) (s : state) : state :=
  {| trace := trace s; local_e := o |}.

Declare Scope handler_scope.
Delimit Scope handler_scope with handler.
Notation "x <- m ;; k" := (bind m (fun x => k))
  (at level 100, m at next level, right associativity) : handler_scope.
Notation "m ;; k" := (bind m (fun _ => k))
  (at level 100, right associativity) : handler_scope.
Local Open Scope handler_scope.

Definition log (lv : level) (msg : text) : M unit := emit (Log lv msg).

(** An external call: recorded, then its outcome. *)
Definition call {A} (ev : effect) (r : result exn A) : M A :=
  emit ev ;; lift r.

(** [try: body / except <class> as e: handler].  The name [e] is bound in
    the clause and deleted again on every way out of it. *)
Definition try_except {A} (body : M A) (catches : exn -> bool)
           (handler : exn -> M A) : M A :=
  fun s =>
    match body s with
    | (Ok a, s') => (Ok a, s')
    | (Err e, s') =>
        if catches e
        then let '(r, s'') := handler e (set_e (Some e) s') in
             (r, set_e None s'')
        else (Err e, s')
    end.

(** [try: body / finally: fin] *)
Definition try_finally {A} (body : M A) (fin : M unit) : M A :=
  fun s =>
    let '(r, s') := body s in
    match fin s' with
    | (Ok _, s'') => (r, s'')
    | (Err e, s'') => (Err e, s'')
    end.

(** [a, b = parts] *)
Definition unpack2 (parts : list string) : M (string * string) :=
  match parts with
  | [a; b] => ret (a, b)
  | _ => raise (ValueError (UnpackMismatch 2 (length parts)))
  end.

(** [float(probe["format"]["duration"])] *)
Definition duration_of (w : World) (info : gmap string (gmap string string))
  : result exn Q :=
  match info !! "format" with
  | None => Err (KeyError "format")
  | Some fmt =>
      match fmt !! "duration" with
      | None => Err (KeyError "duration")
      | Some d =>
          match float w d with
          | Some q => Ok q
          | None => Err (ValueError (InvalidFloatLiteral d))
          end
      end
  end.

(** Lines 50-51: [if 'e' in locals() and hasattr(e, 'stderr'):
    logging.error(e.stderr)]. *)
Definition log_pending_stderr : M unit :=
  fun s =>
    match local_e s with
    | Some (FfmpegError _ err) => log ERROR (Text err) s
    | _ => ret tt s
    end.

Definition success (key out_key bucket_name : string) : Response :=
  {| statusCode := 200;
     message := "Video preview generated successfully";
     input_key := key;
     output_key := out_key;
     bucket := bucket_name |}.

Definition lambda_handler (w : World) (cfg : Config) (env : gmap string string)
           (event : S3Event) : M Response :=
  let s3_bucket_name := bucket_name event in
  let key := unquote_plus w (object_key event) in
  parts <- unpack2 (Py.split "." (Py.basename key)) ;;
  let '(file_name, file_ext) := parts in
  let output_key :=
    Py.path_join (s3_output_prefix cfg) (file_name ++ "_prev." ++ format cfg) in
  out_file <- call TempFile (NamedTemporaryFile w) ;;
  let tmp_input_file := Py.path_join "/tmp" (Py.basename key) in
  try_except
    (log INFO (Text ("Downloading file " ++ key ++ " from bucket " ++ s3_bucket_name)) ;;
     call (Download s3_bucket_name key tmp_input_file)
          (download_file w s3_bucket_name key tmp_input_file))
    is_exception
    (fun e => log ERROR (Text "Failed to download input file") ;; raise e) ;;
  video_duration <-
    try_finally
      (try_except
         (info <- call (Probe tmp_input_file) (probe w tmp_input_file) ;;
          lift (duration_of w info))
         is_ffmpeg_error
         (fun e =>
            log ERROR (Text "failed to get video info") ;;
            match e with
            | FfmpegError _ err => log ERROR (Text err)
            | _ => ret tt
            end ;;
            raise e))
      log_pending_stderr ;;
  sample_seconds <-
    call (Plan video_duration (samples cfg) (sample_duration cfg))
         (calculate_sample_seconds w video_duration (samples cfg) (sample_duration cfg)) ;;
  try_except
    (call (Generate tmp_input_file out_file (sample_duration cfg) sample_seconds
                    (scale cfg) (format cfg) (negb (debug cfg)))
          (generate_video_preview w tmp_input_file out_file (sample_duration cfg)
                                  sample_seconds (scale cfg) (format cfg)
                                  (negb (debug cfg))))
    is_exception
    (fun e => log ERROR (Text "failed to generate video preview") ;; raise e) ;;
  try_except
    (let output_bucket := Py.getenv env "output_bucket" in
     call (Upload out_file output_bucket output_key)
          (upload_file w out_file output_bucket output_key))
    is_exception
    (fun e => log ERROR (Text "failed to upload video preview") ;; raise e) ;;
  try_except
    (emit (Exists tmp_input_file) ;;
     if path_exists w tmp_input_file
     then call (Remove tmp_input_file) (remove w tmp_input_file)
     else ret tt)
    is_exception
    (fun e => log WARNING (WithExn "Failed to clean up temporary file: " e)) ;;
  ret (success key output_key s3_bucket_name).

Definition initial : state := {| trace := []; local_e := None |}.

(** The body of the [try] of lines 42-43: probe, then parse the duration. *)
Definition probe_step (w : World) (path : string) : result exn Q :=
  match probe w path with
  | Ok info => duration_of w info
  | Err e => Err e
  end.

(** What lines 44-47 log for an exception leaving the probe step. *)
Definition probe_failure_log (e : exn) : list effect :=
  match e with
  | FfmpegError _ err =>
      [Log ERROR (Text "failed to get video info"); Log ERROR (Text err)]
  | _ => []
  end.

(** The steps that follow the probe: planning, generating the preview,
    uploading it, cleaning up. *)
Definition later_step (x : effect) : bool :=
  match x with
  | Plan _ _ _ | Generate _ _ _ _ _ _ _ | Upload _ _ _ | Exists _ | Remove _ => true
  | Log _ _ | TempFile | Download _ _ _ | Probe _ => false
  end.

(** One invocation: what the caller gets and what happened on the way. *)
Definition invoke (w : World) (cfg : Config) (env : gmap string string)
           (event : S3Event) : result exn Response * list effect :=
  let '(r, s) := lambda_handler w cfg env event initial in (r, trace s).

Definition outcome (w : World) (cfg : Config) (env : gmap string string)
           (event : S3Event) : result exn Response :=
  fst (invoke w cfg env event).

Definition effects (w : World) (cfg : Config) (env : gmap string string)
           (event : S3Event) : list effect :=
  snd (invoke w cfg env event).

End Handler.

(** * Concrete collaborators, for running the handler *)

Module Scenarios.

Import Handler.
Local Open Scope string_scope.

(** [float] on plain decimal literals such as ["10.0"], the way the media
    engine prints a duration. *)
Definition decimal (s : string) : option Q :=
  match Py.split "." s with
  | [i] => inject_Z <$> Py.digits i
  | [i; f] =>
      match Py.digits i, Py.digits f with
      | Some a, Some b =>
          Some (inject_Z a + inject_Z b / inject_Z (10 ^ Z.of_nat (String.length f)))
      | _, _ => None
      end
  | _ => None
  end.

Definition probe_output (duration : string) : gmap string (gmap string string) :=
  {[ "format" := {[ "duration" := duration ]} ]}.

(** Every collaborator succeeds on a ten-second source; the planner is
    [Planner.plan]. *)
Definition all_fine : World :=
  {| unquote_plus := fun k => k;
     NamedTemporaryFile := Ok "/tmp/tmpk3x9_q2a";
     download_file := fun _ _ _ => Ok tt;
     probe := fun _ => Ok (probe_output "10.0");
     float := decimal;
     calculate_sample_seconds := fun d n sd =>
       match Planner.plan d n (inject_Z sd) with
       | Ok ts => Ok ts
       | Err Planner.InvalidInput => Err (OtherError "InvalidInput" "")
       end;
     generate_video_preview := fun _ _ _ _ _ _ _ => Ok tt;
     upload_file := fun _ _ _ => Ok tt;
     path_exists := fun _ => true;
     remove := fun _ => Ok tt |}.

Definition with_probe (p : string -> result exn (gmap string (gmap string string)))
           (w : World) : World :=
  {| unquote_plus := unquote_plus w;
     NamedTemporaryFile := NamedTemporaryFile w;
     download_file := download_file w;
     probe := p;
     float := float w;
     calculate_sample_seconds := calculate_sample_seconds w;
     generate_video_preview := generate_video_preview w;
     upload_file := upload_file w;
     path_exists := path_exists w;
     remove := remove w |}.

Definition with_remove (r : string -> result exn unit) (w : World) : World :=
  {| unquote_plus := unquote_plus w;
     NamedTemporaryFile := NamedTemporaryFile w;
     download_file := download_file w;
     probe := probe w;
     float := float w;
     calculate_sample_seconds := calculate_sample_seconds w;
     generate_video_preview := generate_video_preview w;
     upload_file := upload_file w;
     path_exists := path_exists w;
     remove := r |}.

(** The engine rejects the file. *)
Definition not_a_video : World :=
  with_probe
    (fun _ => Err (FfmpegError "ffprobe" "Invalid data found when processing input"))
    all_fine.

(** The engine answers, but reports no usable duration. *)
Definition no_duration : World :=
  with_probe (fun _ => Ok (probe_output "N/A")) all_fine.

(** The downloaded input cannot be deleted. *)
Definition undeletable_input : World :=
  with_remove (fun _ => Err (OtherError "PermissionError" "Operation not permitted"))
              all_fine.

Definition environment : gmap string string :=
  {[ "output_bucket" := "previews" ]}.

Definition defaults : Config :=
  {| samples := 4; sample_duration := 2; scale := None; format := "mp4";
     s3_output_prefix := "output"; debug := false |}.

Definition clip_uploaded : S3Event :=
  {| bucket_name := "videos"; object_key := "input/clip.mp4" |}.

Definition two_dots_uploaded : S3Event :=
  {| bucket_name := "videos"; object_key := "input/a.b.mp4" |}.

Definition no_extension_uploaded : S3Event :=
  {| bucket_name := "videos"; object_key := "input/README" |}.

End Scenarios.

(** * Stages of an invocation *)

Module Pipeline.

Import Handler.

(** The collaborator a recorded effect belongs to; log lines belong to
    none. *)
Inductive stage : Type :=
| AtTempFile | AtDownload | AtProbe | AtPlan | AtGenerate | AtUpload
| AtExists | AtRemove.

Definition stage_of (x : effect) : option stage :=
  match x with
  | Log _ _ => None
  | TempFile => Some AtTempFile
  | Download _ _ _ => Some AtDownload
  | Probe _ => Some AtProbe
  | Plan _ _ _ => Some AtPlan
  | Generate _ _ _ _ _ _ _ => Some AtGenerate
  | Upload _ _ _ => Some AtUpload
  | Exists _ => Some AtExists
  | Remove _ => Some AtRemove
  end.

(** The order of the calls in the text of [lambda_handler]. *)
Definition program_order : list stage :=
  [AtTempFile; AtDownload; AtProbe; AtPlan; AtGenerate; AtUpload; AtExists; AtRemove].

Definition is_error_log (x : effect) : bool :=
  match x with
  | Log ERROR _ => true
  | _ => false
  end.

End Pipeline.

(** * The Lambda performance harness ([test.py]) *)

Module Harness.

Import Handler.
Local Open Scope string_scope.

(** [s.rsplit(c, 1)] when [c] occurs in [s]: what precedes and what follows
    its last occurrence. *)
Fixpoint rsplit (c : ascii) (s : string) : option (string * string) :=
  match s with
  | EmptyString => None
  | String d s' =>
      match rsplit c s' with
      | Some (before, after) => Some (String d before, after)
      | None => if Py.is_char d c then Some (EmptyString, s') else None
      end
  end.

Fixpoint has_non_dot (s : string) : bool :=
  match s with
  | EmptyString => false
  | String d s' => negb (Py.is_char d ".") || has_non_dot s'
  end.

(** [os.path.splitext(p)] on POSIX: the extension starts at the last dot,
    provided that dot comes after the last ['/'] and the file name before it
    does not consist of dots only; otherwise the extension is empty. *)
Definition splitext (p : string) : string * string :=
  match rsplit "." p with
  | Some (root, ext) =>
      if Nat.eqb (Py.count_char "/" ext) 0 && has_non_dot (Py.basename root)
      then (root, String "." ext)
      else (p, EmptyString)
  | None => (p, EmptyString)
  end.

(** Lines 42-43 of [upload_video_and_wait_for_preview]: the name under which
    the video is uploaded and the key polled for in the output bucket. *)
Definition video_name (video_path : string) : string := Py.basename video_path.

Definition expected_output_key (video_path : string) : string :=
  "previews/" ++ fst (splitext (video_name video_path)) ++ "_prev.mp4".

(** [s.endswith(suffix)] *)
Fixpoint endswith (suffix s : string) : bool :=
  String.eqb s suffix ||
  match s with
  | EmptyString => false
  | String _ s' => endswith suffix s'
  end.

(** [f.endswith(('.mp4', '.MP4'))] *)
Definition is_test_video (f : string) : bool :=
  endswith ".mp4" f || endswith ".MP4" f.

(** Lines 341-342: the videos found in the folder. *)
Definition find_test_videos (video_folder : string) (listing : list string)
  : list string :=
  map (Py.path_join video_folder) (List.filter is_test_video listing).

(** The keys of [list.sort(key=...)] are computed first, left to right; an
    exception of the key function ends the sort. *)
Fixpoint keys_of (key : string -> result exn Z) (l : list string)
  : result exn (list (Z * string)) :=
  match l with
  | [] => Ok []
  | x :: l' =>
      match key x with
      | Err e => Err e
      | Ok k =>
          match keys_of key l' with
          | Err e => Err e
          | Ok ks => Ok ((k, x) :: ks)
          end
      end
  end.

(** Insertion of an element that stood to the left of all of [l]: it
    stays in front of the elements whose key is not smaller. *)
Fixpoint insert_by_key (a : Z * string) (l : list (Z * string)) : list (Z * string) :=
  match l with
  | [] => [a]
  | b :: l' => if (fst b <? fst a)%Z then b :: insert_by_key a l' else a :: b :: l'
  end.

(** The order [list.sort(key=...)] establishes. *)
Definition by_key (a b : Z * string) : Prop := (fst a <= fst b)%Z.

(** [list.sort] is stable, which fixes its result; it is computed here by
    insertion from the right. *)
Definition sort_by_key (l : list (Z * string)) : list (Z * string) :=
  fold_right insert_by_key [] l.

(** Line 349: [test_videos.sort(key=lambda f: os.path.getsize(f))]. *)
Definition sort_by_size (getsize : string -> result exn Z) (l : list string)
  : result exn (list string) :=
  match keys_of getsize l with
  | Err e => Err e
  | Ok ks => Ok (map snd (sort_by_key ks))
  end.

(** [os.path.getsize(v) == size] *)
Definition has_size (getsize : string -> result exn Z) (size : Z) (v : string) : bool :=
  match getsize v with
  | Ok n => (n =? size)%Z
  | Err _ => false
  end.

Inductive startup : Type :=
| Exit (code : Z)                       (* [exit(1)] *)
| Failed (e : exn)                      (* an uncaught exception *)
| Testing (test_videos : list string).  (* the tester runs on these *)

(** Lines 340-357: from the listing of the folder to the videos handed to
    [LambdaPerformanceTester]. *)
Definition select_test_videos (video_folder : string) (listing : list string)
           (getsize : string -> result exn Z) : startup :=
  let test_videos := find_test_videos video_folder listing in
  match test_videos with
  | [] => Exit 1
  | _ =>
      match sort_by_size getsize test_videos with
      | Err e => Failed e
      | Ok sorted => Testing sorted
      end
  end.

(** Lines 340-357 from the call [os.listdir(args.video_folder)] on: the
    folder may not be listable, and then [os.listdir] raises. *)
Definition start_tests (video_folder : string)
           (listdir : string -> result exn (list string))
           (getsize : string -> result exn Z) : startup :=
  match listdir video_folder with
  | Err e => Failed e
  | Ok listing => select_test_videos video_folder listing getsize
  end.

End Harness.

(** * Collaborators that fail, one stage each *)

Module Failures.

Import Handler.
Local Open Scope string_scope.

Definition access_denied : exn := OtherError "ClientError" "AccessDenied".

Definition set_download (r : result exn unit) (w : World) : World :=
  {| unquote_plus := unquote_plus w;
     NamedTemporaryFile := NamedTemporaryFile w;
     download_file := fun _ _ _ => r;
     probe := probe w;
     float := float w;
     calculate_sample_seconds := calculate_sample_seconds w;
     generate_video_preview := generate_video_preview w;
     upload_file := upload_file w;
     path_exists := path_exists w;
     remove := remove w |}.

Definition set_generate (r : result exn unit) (w : World) : World :=
  {| unquote_plus := unquote_plus w;
     NamedTemporaryFile := NamedTemporaryFile w;
     download_file := download_file w;
     probe := probe w;
     float := float w;
     calculate_sample_seconds := calculate_sample_seconds w;
     generate_video_preview := fun _ _ _ _ _ _ _ => r;
     upload_file := upload_file w;
     path_exists := path_exists w;
     remove := remove w |}.

Definition set_upload (r : result exn unit) (w : World) : World :=
  {| unquote_plus := unquote_plus w;
     NamedTemporaryFile := NamedTemporaryFile w;
     download_file := download_file w;
     probe := probe w;
     float := float w;
     calculate_sample_seconds := calculate_sample_seconds w;
     generate_video_preview := generate_video_preview w;
     upload_file := fun _ _ _ => r;
     path_exists := path_exists w;
     remove := remove w |}.

(** The object cannot be read. *)
Definition no_download : World := set_download (Err access_denied) Scenarios.all_fine.

(** The engine fails while cutting the samples. *)
Definition no_encoding : World :=
  set_generate (Err (FfmpegError "ffmpeg" "Conversion failed!")) Scenarios.all_fine.

(** The output bucket refuses the preview. *)
Definition no_upload : World := set_upload (Err access_denied) Scenarios.all_fine.

(** A source with duration zero, which the planner refuses. *)
Definition empty_source : World :=
  Scenarios.with_probe (fun _ => Ok (Scenarios.probe_output "0.0")) Scenarios.all_fine.

Definition previews_config : Config :=
  {| samples := 4; sample_duration := 2; scale := None; format := "mp4";
     s3_output_prefix := "previews"; debug := false |}.

Definition nested_clip_uploaded : S3Event :=
  {| bucket_name := "videos"; object_key := "archive/2024/clip.mp4" |}.

End Failures.

Import Planner.

(** * Properties of the planner *)

Section PlannerFacts.

Lemma Qleb_true (x y : Q) : Qleb x y = true <-> x <= y.
Proof. unfold Qleb. apply Qle_bool_iff. Qed.

Lemma Qleb_false (x y : Q) : Qleb x y = false <-> y < x.
Proof.
  pose proof (Qleb_true x y) as H.
  destruct (Qleb x y); split; intros H'; try congruence.
  - exfalso. apply (Qlt_not_le _ _ H'). now apply H.
  - apply Qnot_le_lt. intros Hle. apply H in Hle. discriminate.
Qed.

Lemma clamp_inside (lo hi x : Q) : lo <= x -> x <= hi -> clamp lo hi x == x.
Proof.
  intros Hlo Hhi. unfold clamp.
  rewrite (Q.min_l x hi) by exact Hhi.
  apply Q.max_r. exact Hlo.
Qed.

Lemma clamp_bounds (lo hi x : Q) : lo <= hi -> lo <= clamp lo hi x /\ clamp lo hi x <= hi.
Proof.
  intros H. unfold clamp. split.
  - apply Q.le_max_l.
  - apply Q.max_lub; [exact H | apply Q.le_min_r].
Qed.

Lemma length_range (n : Z) : length (range n) = Z.to_nat n.
Proof. unfold range. now rewrite length_map, length_seq. Qed.

Lemma nth_range (n : Z) (k : nat) (d : Z) :
  (k < Z.to_nat n)%nat -> nth k (range n) d = Z.of_nat k.
Proof.
  intros Hk. unfold range.
  rewrite (nth_indep _ d (Z.of_nat 0)) by now rewrite length_map, length_seq.
  rewrite map_nth, seq_nth by exact Hk. reflexivity.
Qed.

(** On valid inputs the guard of [plan] is passed. *)
Lemma plan_valid (D sd : Q) (N : Z) :
  0 < D -> (1 <= N)%Z -> 0 < sd ->
  plan D N sd =
    if Qleb D sd then Ok [0]
    else if (N =? 1)%Z then Ok [usable_span D sd / 2]
    else Ok (map (fun i => clamp 0 (usable_span D sd)
                             (inject_Z i * (usable_span D sd / inject_Z (N - 1))))
                 (range N)).
Proof.
  intros HD HN Hsd. unfold plan.
  assert (H1 : Qleb D 0 = false) by (apply Qleb_false; lra).
  assert (H2 : (N <? 1)%Z = false) by (apply Z.ltb_ge; lia).
  assert (H3 : Qleb sd 0 = false) by (apply Qleb_false; lra).
  rewrite H1, H2, H3. reflexivity.
Qed.

(** What [plan] computes on a valid source longer than one sample. *)
Lemma plan_valid_long (D sd : Q) (N : Z) :
  0 < sd -> sd < D -> (1 <= N)%Z ->
  plan D N sd =
    if (N =? 1)%Z then Ok [usable_span D sd / 2]
    else Ok (map (fun i => clamp 0 (usable_span D sd)
                             (inject_Z i * (usable_span D sd / inject_Z (N - 1))))
                 (range N)).
Proof.
  intros Hsd HD HN. rewrite plan_valid by (try assumption; lra).
  assert (H4 : Qleb D sd = false) by (apply Qleb_false; lra).
  rewrite H4. reflexivity.
Qed.

(** The evenly spaced starts need no clamping in exact arithmetic. *)
Lemma step_in_span (span : Q) (N i : Z) :
  0 < span -> (2 <= N)%Z -> (0 <= i < N)%Z ->
  0 <= inject_Z i * (span / inject_Z (N - 1)) /\
  inject_Z i * (span / inject_Z (N - 1)) <= span.
Proof.
  intros Hs HN Hi.
  assert (Hn : 0 < inject_Z (N - 1)).
  { change 0 with (inject_Z 0). rewrite <- Zlt_Qlt. lia. }
  assert (Hi0 : 0 <= inject_Z i).
  { change 0 with (inject_Z 0). rewrite <- Zle_Qle. lia. }
  assert (Hi1 : inject_Z i <= inject_Z (N - 1)).
  { rewrite <- Zle_Qle. lia. }
  assert (Hstep : 0 < span / inject_Z (N - 1)).
  { apply Qlt_shift_div_l; lra. }
  split.
  - apply Qmult_le_0_compat; lra.
  - assert (E : inject_Z (N - 1) * (span / inject_Z (N - 1)) == span).
    { field. lra. }
    eapply Qle_trans.
    + apply Qmult_le_compat_r; [exact Hi1 | lra].
    + rewrite E. apply Qle_refl.
Qed.

End PlannerFacts.

Section PlannerClaims.

Lemma nth_even_plan (span step : Q) (N : Z) (k : nat) :
  (k < Z.to_nat N)%nat ->
  nth k (map (fun i => clamp 0 span (inject_Z i * step)) (range N)) 0
  = clamp 0 span (inject_Z (Z.of_nat k) * step).
Proof.
  intros Hk.
  rewrite (nth_indep _ 0 (clamp 0 span (inject_Z 0 * step)))
    by now rewrite length_map, length_range.
  rewrite (map_nth (fun i => clamp 0 span (inject_Z i * step))).
  now rewrite nth_range.
Qed.

(** The [k]-th start of an evenly spaced plan, clamping resolved. *)
Lemma nth_even_plan_value (span : Q) (N : Z) (k : nat) :
  0 < span -> (2 <= N)%Z -> (k < Z.to_nat N)%nat ->
  nth k (map (fun i => clamp 0 span (inject_Z i * (span / inject_Z (N - 1))))
             (range N)) 0
  == inject_Z (Z.of_nat k) * (span / inject_Z (N - 1)).
Proof.
  intros Hs HN Hk. rewrite nth_even_plan by exact Hk.
  destruct (step_in_span span N (Z.of_nat k) Hs HN) as [H0 H1]; [lia |].
  now apply clamp_inside.
Qed.

(** In exact arithmetic the evenly spaced starts are strictly increasing:
    for every sample duration [sd > 0], duration [D > sd] and sample count
    [N >= 2], [plan(D, N, sd)] returns exactly [N] timestamps, strictly
    increasing, each within [[0, D - sd]]. *)
Lemma exact_plan_strictly_increasing (D sd : Q) (N : Z) :
  0 < sd -> sd < D -> (2 <= N)%Z ->
  exists ts, plan D N sd = Ok ts /\ length ts = Z.to_nat N /\
             strictly_increasing ts /\ within 0 (D - sd) ts.
Proof.
  intros Hsd HD HN.
  rewrite plan_valid_long by (try assumption; lia).
  replace (N =? 1)%Z with false by (symmetry; apply Z.eqb_neq; lia).
  unfold usable_span. set (span := D - sd).
  assert (Hs : 0 < span) by (unfold span; lra).
  eexists. split; [reflexivity |]. split; [| split].
  - now rewrite length_map, length_range.
  - intros i j [Hij Hj]. rewrite length_map, length_range in Hj.
    rewrite !nth_even_plan_value by (try assumption; lia).
    assert (Hstep : 0 < span / inject_Z (N - 1)).
    { apply Qlt_shift_div_l; [| lra].
      change 0 with (inject_Z 0). rewrite <- Zlt_Qlt. lia. }
    apply Qmult_lt_r; [exact Hstep |].
    rewrite <- Zlt_Qlt. lia.
  - apply List.Forall_forall. intros t Ht.
    apply in_map_iff in Ht. destruct Ht as (i & <- & _).
    apply clamp_bounds. lra.
Qed.

(** In exact arithmetic no start needs clamping: for every sample
    duration [sd > 0], duration [D > sd] and sample count [N > 1], the
    [i]-th timestamp of [plan(D, N, sd)] is [i * (D - sd) / (N - 1)] for
    [i] in [[0, N-1]], and clamping to [[0, D - sd]] leaves it unchanged;
    in particular [plan(10, 4, 2) = [0, 8/3, 16/3, 8]]. *)
Lemma exact_plan_even_timestamps :
  (forall (D sd : Q) (N : Z),
      0 < sd -> sd < D -> (1 < N)%Z ->
      exists ts, plan D N sd = Ok ts /\ length ts = Z.to_nat N /\
                 forall i, (0 <= i < N)%Z ->
                           nth (Z.to_nat i) ts 0
                           == inject_Z i * (D - sd) / inject_Z (N - 1) /\
                           clamp 0 (D - sd) (inject_Z i * (D - sd) / inject_Z (N - 1))
                           == inject_Z i * (D - sd) / inject_Z (N - 1)) /\
  (exists ts, plan 10 4 2 = Ok ts /\ plan_eq ts [0; 8 # 3; 16 # 3; 8]).
Proof.
  split.
  - intros D sd N Hsd HD HN.
    rewrite plan_valid_long by (try assumption; lia).
    replace (N =? 1)%Z with false by (symmetry; apply Z.eqb_neq; lia).
    unfold usable_span. set (span := D - sd).
    assert (Hs : 0 < span) by (unfold span; lra).
    eexists. split; [reflexivity |]. split.
    + now rewrite length_map, length_range.
    + intros i Hi.
      assert (Hn : ~ inject_Z (N - 1) == 0).
      { intros E. assert (0 < inject_Z (N - 1)); [| lra].
        change 0 with (inject_Z 0). rewrite <- Zlt_Qlt. lia. }
      assert (E : inject_Z i * span / inject_Z (N - 1)
                  == inject_Z i * (span / inject_Z (N - 1))).
      { field. exact Hn. }
      destruct (step_in_span span N i Hs) as [H0 H1]; [lia | lia |].
      split.
      * rewrite nth_even_plan_value by (try assumption; lia).
        rewrite Z2Nat.id by lia. symmetry. exact E.
      * apply clamp_inside; rewrite E; assumption.
  - eexists. split; [reflexivity |].
    repeat constructor; reflexivity.
Qed.

(** C3: for [0 < D <= sd] and [N >= 1], [plan(D, N, sd)] is the single
    timestamp 0. *)
Theorem plan_short_source (D sd : Q) (N : Z) :
  0 < D -> D <= sd -> (1 <= N)%Z -> plan D N sd = Ok [0].
Proof.
  intros HD Hsd HN.
  assert (Hpos : 0 < sd) by lra.
  rewrite plan_valid by assumption.
  assert (Hshort : Qleb D sd = true) by (apply Qleb_true; exact Hsd).
  rewrite Hshort. reflexivity.
Qed.

(** C3, at Scenario B. *)
Lemma plan_short_source_witness :
  0 < 3 # 2 /\ 3 # 2 <= 2 /\ (1 <= 4)%Z /\ plan (3 # 2) 4 2 = Ok [0].
Proof.
  split; [reflexivity |]. split; [discriminate |]. split; [lia |].
  apply (plan_short_source (3 # 2) 2 4); [reflexivity | discriminate | lia].
Defined.

(** In exact arithmetic the samples of a source at least one sample long
    lie inside it: for every valid input (duration > 0, sample_count >= 1,
    sample_duration > 0), [plan] returns timestamps [t] with [0 <= t], and
    with [t + sample_duration <= duration] whenever
    [sample_duration <= duration]. *)
Lemma exact_plan_intervals_inside (D sd : Q) (N : Z) :
  0 < D -> (1 <= N)%Z -> 0 < sd ->
  exists ts, plan D N sd = Ok ts /\
             Forall (fun t => 0 <= t /\ (sd <= D -> interval_inside D sd t)) ts.
Proof.
  intros HD HN Hsd.
  destruct (Qlt_le_dec sd D) as [Hlong | Hshort].
  - rewrite plan_valid_long by assumption.
    unfold usable_span, interval_inside.
    destruct (N =? 1)%Z eqn:E1.
    + eexists. split; [reflexivity |].
      constructor; [| constructor].
      assert (E : (D - sd) / 2 == (D - sd) * (1 # 2)) by reflexivity.
      rewrite E. lra.
    + apply Z.eqb_neq in E1.
      eexists. split; [reflexivity |].
      apply List.Forall_forall. intros t Ht.
      apply in_map_iff in Ht. destruct Ht as (i & <- & _).
      destruct (clamp_bounds 0 (D - sd)
                  (inject_Z i * ((D - sd) / inject_Z (N - 1)))) as [H0 H1]; [lra |].
      lra.
  - rewrite plan_valid by assumption.
    assert (Hle : Qleb D sd = true) by (apply Qleb_true; exact Hshort).
    rewrite Hle. eexists. split; [reflexivity |].
    constructor; [| constructor].
    unfold interval_inside. lra.
Qed.

(** In exact arithmetic, too, the single sample is centred: for every
    sample duration [sd > 0] and duration [D > sd], [plan(D, 1, sd)] is the
    single timestamp [(D - sd) / 2]; in particular
    [plan(20, 1, 2) = [9]]. *)
Lemma exact_plan_single_centered :
  (forall D sd : Q, 0 < sd -> sd < D -> plan D 1 sd = Ok [(D - sd) / 2]) /\
  (exists ts, plan 20 1 2 = Ok ts /\ plan_eq ts [9]).
Proof.
  split.
  - intros D sd Hsd HD. rewrite plan_valid_long by (try assumption; lia).
    reflexivity.
  - eexists. split; [reflexivity |]. repeat constructor; reflexivity.
Qed.

(** C6: [plan] signals [InvalidInput], and so returns no plan, exactly when
    duration <= 0, or sample_count < 1, or sample_duration <= 0; on every
    other input it returns a plan. *)
Theorem plan_invalid_input_iff (D sd : Q) (N : Z) :
  (plan D N sd = Err InvalidInput <-> D <= 0 \/ (N < 1)%Z \/ sd <= 0) /\
  (plan D N sd = Err InvalidInput -> ~ exists ts, plan D N sd = Ok ts) /\
  (~ (D <= 0 \/ (N < 1)%Z \/ sd <= 0) -> exists ts, plan D N sd = Ok ts).
Proof.
  assert (Hguard : Qleb D 0 || (N <? 1)%Z || Qleb sd 0 = true
                   <-> D <= 0 \/ (N < 1)%Z \/ sd <= 0).
  { rewrite !orb_true_iff, !Qleb_true, Z.ltb_lt. tauto. }
  assert (Hok : Qleb D 0 || (N <? 1)%Z || Qleb sd 0 = false ->
                exists ts, plan D N sd = Ok ts).
  { intros E. unfold plan. rewrite E.
    destruct (Qleb D sd); [eauto |]. destruct (N =? 1)%Z; eauto. }
  split; [| split].
  - split.
    + intros H. apply Hguard.
      destruct (Qleb D 0 || (N <? 1)%Z || Qleb sd 0) eqn:E; [reflexivity |].
      destruct (Hok eq_refl) as [ts Hts]. congruence.
    + intros Hc. apply Hguard in Hc. unfold plan. now rewrite Hc.
  - intros H [ts Hts]. congruence.
  - intros Hn. apply Hok.
    destruct (Qleb D 0 || (N <? 1)%Z || Qleb sd 0) eqn:E; [| reflexivity].
    exfalso. apply Hn, Hguard. reflexivity.
Qed.

End PlannerClaims.

(** * Properties of binary64 rounding *)

Section Float64Facts.

Import Float64 Rounding Planner64.
Local Open Scope Z_scope.

(** ** Sign of rounded results *)

Lemma iter_pos_invariant {A : Type} (P : A -> Prop) (f : A -> A) :
  (forall x, P x -> P (f x)) -> forall n x, P x -> P (iter_pos f n x).
Proof.
  intros Hf. induction n as [n IH | n IH |]; intros x Hx; cbn; auto.
Qed.

Lemma shr_1_nonneg mrs : 0 <= shr_m mrs -> 0 <= shr_m (shr_1 mrs).
Proof.
  destruct mrs as [m r s]. cbn. intros H.
  destruct m as [| [p | p |] | p]; cbn; lia.
Qed.

Lemma shr_nonneg mrs e n : 0 <= shr_m mrs -> 0 <= shr_m (fst (shr mrs e n)).
Proof.
  intros H. unfold shr. destruct n; cbn; try exact H.
  now apply (iter_pos_invariant (fun r => 0 <= shr_m r)); [apply shr_1_nonneg |].
Qed.

Lemma shr_fexp_nonneg m e l : 0 <= m -> 0 <= shr_m (fst (shr_fexp prec emax m e l)).
Proof.
  intros H. unfold shr_fexp. apply shr_nonneg.
  destruct l as [| []]; exact H.
Qed.

Lemma round_nearest_even_nonneg m l : 0 <= m -> 0 <= round_nearest_even m l.
Proof.
  intros H. unfold round_nearest_even.
  destruct l as [| []]; try lia. destruct (Z.even m); lia.
Qed.

Lemma round_aux_nonneg m e l : 0 <= m -> nonneg (binary_round_aux prec emax false m e l).
Proof.
  intros H. unfold binary_round_aux.
  pose proof (shr_fexp_nonneg m e l H) as H1.
  destruct (shr_fexp prec emax m e l) as [mrs' e']. cbn [fst] in H1.
  pose proof (shr_fexp_nonneg _ e' loc_Exact
                (round_nearest_even_nonneg _ (loc_of_shr_record mrs') H1)) as H2.
  destruct (shr_fexp prec emax _ e' loc_Exact) as [mrs'' e'']. cbn [fst] in H2.
  destruct (shr_m mrs'') as [| q | q].
  - exact I.
  - destruct (e'' <=? emax - prec); reflexivity.
  - lia.
Qed.

Lemma normalize_nonneg z e : 0 <= z -> nonneg (binary_normalize prec emax z e false).
Proof.
  intros H. destruct z as [| m | m]; [exact I | | lia].
  cbn [binary_normalize]. unfold binary_round.
  destruct (shl_align m e _) as [mz ez].
  apply round_aux_nonneg. lia.
Qed.

(** ** Comparisons *)

Lemma SFcompare_antisym x y :
  SFcompare y x = option_map CompOpp (SFcompare x y).
Proof.
  destruct x as [sx | sx | | sx mx ex], y as [sy | sy | | sy my ey]; cbn;
    try reflexivity;
    try (destruct sx; reflexivity); try (destruct sy; reflexivity);
    try (destruct sx, sy; reflexivity).
  destruct sx, sy; cbn; try reflexivity.
  - rewrite (Z.compare_antisym ey ex). destruct (ey ?= ex); cbn; try reflexivity.
    rewrite (Pos.compare_cont_antisym _ _ Eq). cbn.
    now rewrite CompOpp_involutive.
  - rewrite (Z.compare_antisym ey ex). destruct (ey ?= ex); cbn; try reflexivity.
    now rewrite (Pos.compare_cont_antisym _ _ Eq).
Qed.

Lemma ltb_leb x y : ltb x y = true -> leb x y = true.
Proof. unfold ltb, leb, SFltb, SFleb. destruct (SFcompare x y) as [[]|]; congruence. Qed.

Lemma not_ltb_leb x y :
  x <> S754_nan -> y <> S754_nan -> ltb y x = false -> leb x y = true.
Proof.
  unfold ltb, leb, SFltb, SFleb. rewrite (SFcompare_antisym x y).
  intros Hx Hy. destruct (SFcompare x y) as [[]|] eqn:E; cbn; try congruence.
  destruct x, y; cbn in E; congruence.
Qed.

Lemma leb_refl x : x <> S754_nan -> leb x x = true.
Proof.
  intros H. unfold leb, SFleb.
  destruct x as [s | s | | s m e]; cbn; try congruence; try (destruct s; reflexivity).
  destruct s; rewrite Z.compare_refl; rewrite Pos.compare_cont_refl; reflexivity.
Qed.

Lemma nonneg_leb_zero x : nonneg x -> leb zero x = true.
Proof. destruct x as [s | s | | s m e]; cbn; try tauto; intros ->; reflexivity. Qed.

Lemma ltb_not_nan_l x y : ltb x y = true -> x <> S754_nan.
Proof. intros H ->. discriminate H. Qed.

Lemma ltb_not_nan_r x y : ltb x y = true -> y <> S754_nan.
Proof. intros H ->. destruct x; discriminate H. Qed.

Lemma nonneg_not_nan x : nonneg x -> x <> S754_nan.
Proof. intros H ->. exact H. Qed.

Lemma clamp_within span x :
  nonneg span -> leb zero (clamp zero span x) = true /\ leb (clamp zero span x) span = true.
Proof.
  intros Hs. unfold clamp, py_max, py_min.
  destruct (ltb zero (if ltb span x then span else x)) eqn:E0.
  - split; [now apply ltb_leb |].
    destruct (ltb span x) eqn:E1.
    + apply leb_refl. now apply nonneg_not_nan.
    + apply not_ltb_leb; [eapply ltb_not_nan_r; exact E0 | now apply nonneg_not_nan | exact E1].
  - split; [reflexivity | now apply nonneg_leb_zero].
Qed.

(** ** Digits *)

Lemma digits2_pos_spec (m : positive) :
  2 ^ (Zpos (digits2_pos m) - 1) <= Zpos m < 2 ^ Zpos (digits2_pos m).
Proof.
  induction m as [m IH | m IH |]; cbn [digits2_pos].
  - rewrite Pos2Z.inj_succ.
    replace (Z.succ (Zpos (digits2_pos m)) - 1) with (Z.succ (Zpos (digits2_pos m) - 1)) by lia.
    rewrite !Z.pow_succ_r by lia. lia.
  - rewrite Pos2Z.inj_succ.
    replace (Z.succ (Zpos (digits2_pos m)) - 1) with (Z.succ (Zpos (digits2_pos m) - 1)) by lia.
    rewrite !Z.pow_succ_r by lia. lia.
  - cbn. lia.
Qed.

Lemma digits_pos (m : Z) : 0 < m -> 0 < digits m /\ 2 ^ (digits m - 1) <= m < 2 ^ digits m.
Proof.
  destruct m as [| m | m]; try lia. intros _. cbn.
  split; [lia | apply digits2_pos_spec].
Qed.

Lemma digits_unique (m d : Z) : 0 < d -> 2 ^ (d - 1) <= m < 2 ^ d -> digits m = d.
Proof.
  intros Hd [Hlo Hhi].
  assert (Hm : 0 < m) by (pose proof (Z.pow_pos_nonneg 2 (d - 1)); lia).
  destruct (digits_pos m Hm) as (Hd' & Hlo' & Hhi').
  assert (d - 1 < digits m).
  { apply (Z.pow_lt_mono_r_iff 2); lia. }
  assert (digits m - 1 < d).
  { apply (Z.pow_lt_mono_r_iff 2); lia. }
  lia.
Qed.

Lemma digits_le (a b : Z) : 0 < a -> a <= b -> digits a <= digits b.
Proof.
  intros Ha Hab.
  destruct (digits_pos a Ha) as (Hda & Hlo & _).
  destruct (digits_pos b ltac:(lia)) as (Hdb & _ & Hhi).
  assert (digits a - 1 < digits b); [| lia].
  apply (Z.pow_lt_mono_r_iff 2); lia.
Qed.

(** ** Shifting right *)

Lemma iter_pos_iter {A : Type} (f : A -> A) (n : positive) (x : A) :
  iter_pos f n x = Pos.iter f x n.
Proof.
  revert x. induction n as [n IH | n IH |]; intros x; cbn.
  - rewrite !IH. rewrite <- !Pos.iter_swap. reflexivity.
  - rewrite !IH. reflexivity.
  - reflexivity.
Qed.

Lemma shr_1_spec (M : Z) (r s : bool) :
  0 <= M ->
  shr_1 (Build_shr_record M r s) = Build_shr_record (M / 2) (Z.odd M) (r || s).
Proof.
  intros H. destruct M as [| [q | q |] | q]; try lia; cbn [shr_1].
  - reflexivity.
  - f_equal. rewrite Pos2Z.inj_xI. apply Z.div_unique with 1; lia.
  - f_equal. rewrite Pos2Z.inj_xO. apply Z.div_unique with 0; lia.
  - reflexivity.
Qed.

Lemma shifted_step (m k : Z) (mrs : shr_record) :
  0 <= m -> 0 <= k -> shifted m k mrs -> shifted m (k + 1) (shr_1 mrs).
Proof.
  intros Hm Hk (HM & Hrs & _). destruct mrs as [M r s]. cbn in HM, Hrs.
  assert (H2k : 0 < 2 ^ k) by (apply Z.pow_pos_nonneg; lia).
  assert (HM0 : 0 <= M) by (subst M; apply Z.div_pos; lia).
  rewrite shr_1_spec by exact HM0.
  assert (Epow : 2 ^ (k + 1) = 2 ^ k * 2) by (rewrite Z.pow_add_r by lia; reflexivity).
  pose proof (Z.div_mod m (2 ^ k) ltac:(lia)) as Hdm.
  pose proof (Z.mod_pos_bound m (2 ^ k) H2k) as Hrem.
  pose proof (Z.div_mod M 2 ltac:(lia)) as HdM.
  pose proof (Z.mod_pos_bound M 2 ltac:(lia)) as HbM.
  assert (Hq : m / 2 ^ (k + 1) = M / 2).
  { rewrite Epow, <- Z.div_div by lia. now rewrite <- HM. }
  assert (Hr : m mod 2 ^ (k + 1) = m mod 2 ^ k + 2 ^ k * (M mod 2)).
  { symmetry. apply Z.mod_unique with (M / 2); [left; nia |]. rewrite Epow. nia. }
  assert (Hodd : Z.odd M = negb (M mod 2 =? 0)).
  { rewrite Zmod_odd. destruct (Z.odd M); reflexivity. }
  unfold shifted. cbn [shr_m shr_r shr_s loc_of_shr_record].
  split; [symmetry; exact Hq |].
  rewrite Hr, Hrs, Hodd. unfold loc_of_rem. rewrite Epow.
  destruct (m mod 2 ^ k =? 0) eqn:E1; destruct (M mod 2 =? 0) eqn:E2; cbn [negb orb].
  - apply Z.eqb_eq in E1, E2. rewrite E1, E2.
    replace (0 + 2 ^ k * 0) with 0 by lia. cbn. auto.
  - apply Z.eqb_eq in E1. apply Z.eqb_neq in E2.
    assert (M mod 2 = 1) by lia. rewrite E1, H.
    replace (0 + 2 ^ k * 1 =? 0) with false by (symmetry; apply Z.eqb_neq; lia).
    cbn [negb]. split; [reflexivity |]. f_equal. symmetry. apply Z.compare_eq_iff. lia.
  - apply Z.eqb_neq in E1. apply Z.eqb_eq in E2. rewrite E2.
    replace (m mod 2 ^ k + 2 ^ k * 0 =? 0) with false by (symmetry; apply Z.eqb_neq; lia).
    cbn [negb]. split; [reflexivity |]. f_equal. symmetry. apply Z.compare_lt_iff. lia.
  - apply Z.eqb_neq in E1, E2. assert (M mod 2 = 1) by lia. rewrite H.
    replace (m mod 2 ^ k + 2 ^ k * 1 =? 0) with false by (symmetry; apply Z.eqb_neq; lia).
    cbn [negb]. split; [reflexivity |]. f_equal. symmetry. apply Z.compare_gt_iff. lia.
Qed.

Lemma shifted_zero (m : Z) : shifted m 0 (Build_shr_record m false false).
Proof.
  unfold shifted, loc_of_rem. cbn [shr_m shr_r shr_s loc_of_shr_record].
  rewrite Z.pow_0_r, Z.div_1_r, Z.mod_1_r. cbn. auto.
Qed.

Lemma shifted_iter (m : Z) (n : positive) :
  0 <= m -> shifted m (Zpos n) (Pos.iter shr_1 (Build_shr_record m false false) n).
Proof.
  intros Hm. induction n as [| n IH] using Pos.peano_ind.
  - cbn [Pos.iter]. apply (shifted_step m 0); [lia | lia | apply shifted_zero].
  - rewrite Pos.iter_succ, Pos2Z.inj_succ.
    replace (Z.succ (Zpos n)) with (Zpos n + 1) by lia.
    apply shifted_step; [lia | lia | exact IH].
Qed.

(** Shifting an exact record right by [n >= 0] places. *)
Lemma shr_exact (m e n : Z) :
  0 <= m -> 0 <= n ->
  exists mrs, shr (Build_shr_record m false false) e n = (mrs, e + n) /\ shifted m n mrs.
Proof.
  intros Hm Hn. destruct n as [| n | n]; try lia.
  - exists (Build_shr_record m false false). split; [cbn; f_equal; lia | apply shifted_zero].
  - eexists. split; [cbn [shr]; rewrite iter_pos_iter; reflexivity |].
    now apply shifted_iter.
Qed.

(** ** Rounding to nearest, ties to even, on integers *)

Lemma rne_bounds (m n : Z) : m / 2 ^ n <= rne m n <= m / 2 ^ n + 1.
Proof.
  unfold rne, round_nearest_even, loc_of_rem.
  destruct (m mod 2 ^ n =? 0); [lia |].
  destruct (2 * (m mod 2 ^ n) ?= 2 ^ n); try lia.
  destruct (Z.even (m / 2 ^ n)); lia.
Qed.

Lemma rne_mono (m1 m2 n : Z) : 0 <= n -> m1 <= m2 -> rne m1 n <= rne m2 n.
Proof.
  intros Hn H12.
  assert (H2n : 0 < 2 ^ n) by (apply Z.pow_pos_nonneg; lia).
  pose proof (Z.div_le_mono m1 m2 (2 ^ n) H2n H12) as Hdiv.
  destruct (Z.eq_dec (m1 / 2 ^ n) (m2 / 2 ^ n)) as [Heq | Hne].
  - pose proof (Z.div_mod m1 (2 ^ n) ltac:(lia)) as D1.
    pose proof (Z.div_mod m2 (2 ^ n) ltac:(lia)) as D2.
    assert (Hrem : m1 mod 2 ^ n <= m2 mod 2 ^ n) by (rewrite Heq in D1; nia).
    pose proof (Z.mod_pos_bound m1 (2 ^ n) H2n) as B1.
    unfold rne, round_nearest_even, loc_of_rem. rewrite Heq.
    destruct (Z.eqb_spec (m1 mod 2 ^ n) 0) as [E1 | E1];
      destruct (Z.eqb_spec (m2 mod 2 ^ n) 0) as [E2 | E2]; try lia.
    + destruct (2 * (m2 mod 2 ^ n) ?= 2 ^ n); try lia.
      destruct (Z.even (m2 / 2 ^ n)); lia.
    + destruct (Z.compare_spec (2 * (m1 mod 2 ^ n)) (2 ^ n));
        destruct (Z.compare_spec (2 * (m2 mod 2 ^ n)) (2 ^ n)); try lia;
        destruct (Z.even (m2 / 2 ^ n)); lia.
  - pose proof (rne_bounds m1 n). pose proof (rne_bounds m2 n). lia.
Qed.

Lemma rne_scale (m n c : Z) :
  0 <= n -> 0 <= c -> rne (m * 2 ^ c) (n + c) = rne m n.
Proof.
  intros Hn Hc.
  assert (H2n : 0 < 2 ^ n) by (apply Z.pow_pos_nonneg; lia).
  assert (H2c : 0 < 2 ^ c) by (apply Z.pow_pos_nonneg; lia).
  assert (Epow : 2 ^ (n + c) = 2 ^ n * 2 ^ c) by (apply Z.pow_add_r; lia).
  assert (Hq : m * 2 ^ c / 2 ^ (n + c) = m / 2 ^ n).
  { rewrite Epow. apply Z.div_mul_cancel_r; lia. }
  assert (Hr : (m * 2 ^ c) mod 2 ^ (n + c) = (m mod 2 ^ n) * 2 ^ c).
  { rewrite Epow. apply Z.mul_mod_distr_r; lia. }
  unfold rne, loc_of_rem. rewrite Hq, Hr, Epow.
  pose proof (Z.mod_pos_bound m (2 ^ n) H2n) as B.
  destruct (Z.eqb_spec (m mod 2 ^ n) 0) as [E | E].
  - rewrite E. reflexivity.
  - destruct (Z.eqb_spec (m mod 2 ^ n * 2 ^ c) 0) as [E' | E']; [nia |].
    replace (2 * (m mod 2 ^ n * 2 ^ c) ?= 2 ^ n * 2 ^ c)
      with (2 * (m mod 2 ^ n) ?= 2 ^ n); [reflexivity |].
    destruct (Z.compare_spec (2 * (m mod 2 ^ n)) (2 ^ n)); symmetry.
    + apply Z.compare_eq_iff. nia.
    + apply Z.compare_lt_iff. nia.
    + apply Z.compare_gt_iff. nia.
Qed.

Lemma rne_below (m n k : Z) : 0 <= n -> 0 <= k -> 0 <= m < 2 ^ (n + k) -> rne m n <= 2 ^ k.
Proof.
  intros Hn Hk [Hm0 Hm].
  assert (H2n : 0 < 2 ^ n) by (apply Z.pow_pos_nonneg; lia).
  rewrite Z.pow_add_r in Hm by lia.
  assert (m / 2 ^ n < 2 ^ k).
  { apply Z.div_lt_upper_bound; lia. }
  pose proof (rne_bounds m n). lia.
Qed.

Lemma rne_above (m n k : Z) : 0 <= n -> 0 <= k -> 2 ^ (n + k) <= m -> 2 ^ k <= rne m n.
Proof.
  intros Hn Hk Hm.
  assert (H2n : 0 < 2 ^ n) by (apply Z.pow_pos_nonneg; lia).
  rewrite Z.pow_add_r in Hm by lia.
  assert (2 ^ k <= m / 2 ^ n).
  { apply Z.div_le_lower_bound; lia. }
  pose proof (rne_bounds m n). lia.
Qed.

Lemma rne_nonneg (m n : Z) : 0 <= n -> 0 <= m -> 0 <= rne m n.
Proof.
  intros Hn Hm.
  assert (0 <= m / 2 ^ n) by (apply Z.div_pos; [lia | apply Z.pow_pos_nonneg; lia]).
  pose proof (rne_bounds m n). lia.
Qed.

(** ** What [binary_round_aux] computes *)

Lemma fexp_ge_emin k : emin <= fexp k.
Proof. unfold fexp, SpecFloat.fexp, emin. lia. Qed.

Lemma fexp_spec k : fexp k = Z.max (k - prec) emin.
Proof. reflexivity. Qed.

Lemma round_aux_spec (m e : Z) :
  0 < m -> e <= target m e ->
  binary_round_aux prec emax false m e loc_Exact
  = finish (rne m (target m e - e)) (target m e).
Proof.
  intros Hm Hn. set (E := target m e) in *. set (n := E - e).
  assert (Hn0 : 0 <= n) by (unfold n; lia).
  destruct (digits_pos m Hm) as (Hd & Hlo & Hhi).
  assert (HE : emin <= E) by apply fexp_ge_emin.
  assert (HEd : digits m + e - prec <= E).
  { unfold E, target. rewrite fexp_spec. lia. }
  (* first shift *)
  unfold binary_round_aux, shr_fexp. cbn [shr_record_of_loc].
  change (SpecFloat.fexp prec emax (Zdigits2 m + e)) with E.
  fold n.
  destruct (shr_exact m e n ltac:(lia) Hn0) as (mrs' & -> & Hm' & _ & Hl').
  replace (e + n) with E by (unfold n; lia).
  rewrite Hm', Hl'. fold (rne m n).
  (* the rounded mantissa *)
  assert (Hq0 : 0 <= rne m n) by (apply rne_nonneg; lia).
  assert (Hqp : rne m n <= 2 ^ prec).
  { destruct (Z_lt_le_dec (digits m) n) as [Hlt | Hge].
    - assert (m < 2 ^ (n + 0)).
      { rewrite Z.add_0_r. eapply Z.lt_le_trans; [exact Hhi |].
        apply Z.pow_le_mono_r; lia. }
      pose proof (rne_below m n 0 Hn0 ltac:(lia) ltac:(lia)) as Hb.
      change (2 ^ 0) with 1 in Hb. change (2 ^ prec) with 9007199254740992. lia.
    - apply rne_below; [lia | unfold prec; lia |].
      split; [lia |]. eapply Z.lt_le_trans; [exact Hhi |].
      apply Z.pow_le_mono_r; [lia |]. unfold n. lia. }
  set (q := rne m n) in *.
  unfold finish.
  destruct (Z.eqb_spec q 0) as [Eq0 | Eq0].
  - (* zero *)
    rewrite Eq0. cbn [Zdigits2].
    assert (Hs : SpecFloat.fexp prec emax (0 + E) - E <= 0).
    { change (SpecFloat.fexp prec emax (0 + E)) with (fexp (0 + E)).
      rewrite fexp_spec. unfold prec. lia. }
    unfold shr. destruct (SpecFloat.fexp prec emax (0 + E) - E); try lia; reflexivity.
  - destruct (Z.ltb_spec q (2 ^ prec)) as [Hlt | Hge].
    + (* no renormalisation *)
      assert (Hqpos : 0 < q) by lia.
      destruct (digits_pos q Hqpos) as (Hdq & Hqlo & Hqhi).
      assert (Hdqp : digits q <= prec).
      { assert (digits q - 1 < prec); [| lia].
        apply (Z.pow_lt_mono_r_iff 2); [lia | unfold prec; lia | lia]. }
      assert (Hs : SpecFloat.fexp prec emax (Zdigits2 q + E) - E <= 0).
      { change (SpecFloat.fexp prec emax (Zdigits2 q + E)) with (fexp (digits q + E)).
        rewrite fexp_spec. lia. }
      unfold shr.
      destruct (SpecFloat.fexp prec emax (Zdigits2 q + E) - E) eqn:Es; try lia;
        cbn [shr_m]; destruct q as [| q' | q']; try lia; reflexivity.
    + (* the rounding carried into a new binade *)
      assert (Eq : q = 2 ^ prec) by lia.
      assert (Hdq : digits q = prec + 1).
      { apply digits_unique; [unfold prec; lia |].
        rewrite Eq. replace (prec + 1 - 1) with prec by lia.
        split; [lia |]. apply Z.pow_lt_mono_r; unfold prec; lia. }
      assert (Hs : SpecFloat.fexp prec emax (Zdigits2 q + E) - E = 1).
      { change (SpecFloat.fexp prec emax (Zdigits2 q + E)) with (fexp (digits q + E)).
        rewrite fexp_spec, Hdq. lia. }
      rewrite Hs.
      destruct (shr_exact q E 1 ltac:(lia) ltac:(lia)) as (mrs'' & -> & Hm'' & _).
      rewrite Hm'', Eq. change (2 ^ prec / 2 ^ 1) with (2 ^ (prec - 1)).
      reflexivity.
Qed.

(** ** Order of rounded results *)

Lemma to_pos_le (x y : Z) : 0 < x -> x <= y -> (Z.to_pos x <= Z.to_pos y)%positive.
Proof.
  intros Hx Hxy. lia.
Qed.

Lemma leb_finite (a b : positive) (e e' : Z) :
  leb (S754_finite false a e) (S754_finite false b e') = true
  <-> e < e' \/ (e = e' /\ (a <= b)%positive).
Proof.
  unfold leb, SFleb. cbn [SFcompare].
  change (Pos.compare_cont Eq a b) with (Pos.compare a b).
  destruct (Z.compare_spec e e'); destruct (Pos.compare_spec a b); split; intros H';
    try reflexivity; try discriminate; try lia; subst; try (right; split; lia).
Qed.

Lemma leb_zero_l (s : bool) (x : float) : nonneg x -> leb (S754_zero s) x = true.
Proof. destruct x as [t | t | | t m e]; cbn; try tauto; intros ->; reflexivity. Qed.


Lemma finish_nonneg (q E : Z) : nonneg (finish q E).
Proof.
  unfold finish. destruct (q =? 0); [exact I |].
  destruct (q <? 2 ^ prec); [destruct (E <=? emax - prec) | destruct (E + 1 <=? emax - prec)];
    reflexivity.
Qed.

Lemma finish_le_same (E q1 q2 : Z) :
  0 <= q1 <= q2 -> q2 <= 2 ^ prec -> leb (finish q1 E) (finish q2 E) = true.
Proof.
  intros [H0 H12] Hp. unfold finish.
  destruct (Z.eqb_spec q1 0) as [E1 | E1].
  { apply leb_zero_l. apply (finish_nonneg q2 E). }
  destruct (Z.eqb_spec q2 0) as [E2 | E2]; [lia |].
  destruct (Z.ltb_spec q1 (2 ^ prec)) as [L1 | L1];
    destruct (Z.ltb_spec q2 (2 ^ prec)) as [L2 | L2]; try lia.
  - destruct (Z.leb_spec E (emax - prec)); [| reflexivity].
    apply leb_finite. right. split; [reflexivity |].
    apply to_pos_le; lia.
  - destruct (Z.leb_spec E (emax - prec)) as [O1 | O1];
      destruct (Z.leb_spec (E + 1) (emax - prec)) as [O2 | O2]; try reflexivity; try lia.
    apply leb_finite. left. lia.
  - destruct (Z.leb_spec (E + 1) (emax - prec)); [| reflexivity].
    apply leb_finite. right. split; [reflexivity | lia].
Qed.

Lemma finish_le_next (E1 E2 q1 q2 : Z) :
  E1 < E2 -> 0 <= q1 <= 2 ^ prec -> 2 ^ (prec - 1) <= q2 <= 2 ^ prec ->
  leb (finish q1 E1) (finish q2 E2) = true.
Proof.
  intros HE [H0 Hq1] [Hlo Hq2]. unfold finish.
  assert (Hhalf : 0 < 2 ^ (prec - 1)) by (apply Z.pow_pos_nonneg; unfold prec; lia).
  destruct (Z.eqb_spec q1 0) as [Z1 | Z1].
  { apply leb_zero_l. apply (finish_nonneg q2 E2). }
  destruct (Z.eqb_spec q2 0) as [Z2 | Z2]; [lia |].
  destruct (Z.ltb_spec q1 (2 ^ prec)) as [L1 | L1];
    destruct (Z.ltb_spec q2 (2 ^ prec)) as [L2 | L2].
  - destruct (Z.leb_spec E1 (emax - prec)); destruct (Z.leb_spec E2 (emax - prec));
      try reflexivity; try lia.
    apply leb_finite. left. lia.
  - destruct (Z.leb_spec E1 (emax - prec)); destruct (Z.leb_spec (E2 + 1) (emax - prec));
      try reflexivity; try lia.
    apply leb_finite. left. lia.
  - destruct (Z.leb_spec (E1 + 1) (emax - prec)); destruct (Z.leb_spec E2 (emax - prec));
      try reflexivity; try lia.
    apply leb_finite.
    destruct (Z.eq_dec (E1 + 1) E2) as [Heq | Hne]; [right | left; lia].
    split; [exact Heq |]. apply to_pos_le; lia.
  - destruct (Z.leb_spec (E1 + 1) (emax - prec));
      destruct (Z.leb_spec (E2 + 1) (emax - prec)); try reflexivity; try lia.
    apply leb_finite. left. lia.
Qed.

(** ** Rounding is monotone *)

Lemma value_le_digits (m1 e1 m2 e2 : Z) :
  0 < m1 -> 0 < m2 -> value_le m1 e1 m2 e2 -> digits m1 + e1 <= digits m2 + e2.
Proof.
  intros H1 H2 Hv. unfold value_le in Hv. set (k := Z.min e1 e2) in *.
  destruct (digits_pos m1 H1) as (Hd1 & Hlo1 & _).
  destruct (digits_pos m2 H2) as (Hd2 & _ & Hhi2).
  assert (Hk1 : 0 <= e1 - k) by (unfold k; lia).
  assert (Hk2 : 0 <= e2 - k) by (unfold k; lia).
  assert (Hp1 : 0 < 2 ^ (e1 - k)) by (apply Z.pow_pos_nonneg; lia).
  assert (Hp2 : 0 < 2 ^ (e2 - k)) by (apply Z.pow_pos_nonneg; lia).
  assert (A : 2 ^ (digits m1 - 1 + (e1 - k)) <= m1 * 2 ^ (e1 - k)).
  { rewrite Z.pow_add_r by lia. nia. }
  assert (B : m2 * 2 ^ (e2 - k) < 2 ^ (digits m2 + (e2 - k))).
  { rewrite Z.pow_add_r by lia. nia. }
  assert (digits m1 - 1 + (e1 - k) < digits m2 + (e2 - k)); [| lia].
  apply (Z.pow_lt_mono_r_iff 2); lia.
Qed.

Lemma target_bounds (m e : Z) :
  0 < m -> e <= target m e ->
  0 <= rne m (target m e - e) <= 2 ^ prec /\
  (emin < target m e -> 2 ^ (prec - 1) <= rne m (target m e - e)).
Proof.
  intros Hm Hn. set (E := target m e) in *.
  destruct (digits_pos m Hm) as (Hd & Hlo & Hhi).
  assert (HEd : digits m + e - prec <= E) by (unfold E, target; rewrite fexp_spec; lia).
  split; [split |].
  - apply rne_nonneg; lia.
  - destruct (Z_lt_le_dec (digits m) (E - e)) as [Hlt | Hge].
    + assert (m < 2 ^ (E - e + 0)).
      { rewrite Z.add_0_r. eapply Z.lt_le_trans; [exact Hhi |].
        apply Z.pow_le_mono_r; lia. }
      pose proof (rne_below m (E - e) 0 ltac:(lia) ltac:(lia) ltac:(lia)) as Hb.
      change (2 ^ 0) with 1 in Hb. change (2 ^ prec) with 9007199254740992. lia.
    + apply rne_below; [lia | unfold prec; lia |].
      split; [lia |]. eapply Z.lt_le_trans; [exact Hhi |].
      apply Z.pow_le_mono_r; lia.
  - intros Hemin.
    assert (EE : E = digits m + e - prec).
    { unfold E, target in *. rewrite fexp_spec in *. lia. }
    apply rne_above; [lia | unfold prec; lia |].
    replace (E - e + (prec - 1)) with (digits m - 1) by lia. exact Hlo.
Qed.

Lemma rounded_mono (m1 e1 m2 e2 : Z) :
  0 < m1 -> 0 < m2 -> e1 <= target m1 e1 -> e2 <= target m2 e2 ->
  value_le m1 e1 m2 e2 ->
  leb (rounded m1 e1) (rounded m2 e2) = true.
Proof.
  intros H1 H2 Hn1 Hn2 Hv. unfold rounded.
  pose proof (value_le_digits _ _ _ _ H1 H2 Hv) as Hd.
  destruct (target_bounds m1 e1 H1 Hn1) as ([Hq1 Hq1p] & _).
  destruct (target_bounds m2 e2 H2 Hn2) as ([Hq2 Hq2p] & Hq2lo).
  set (E1 := target m1 e1) in *. set (E2 := target m2 e2) in *.
  assert (HE : E1 <= E2).
  { unfold E1, E2, target. rewrite !fexp_spec. lia. }
  assert (HE1 : emin <= E1) by apply fexp_ge_emin.
  destruct (Z.eq_dec E1 E2) as [Heq | Hne].
  - rewrite <- Heq in *. apply finish_le_same; [split; [exact Hq1 |] | exact Hq2p].
    (* bring both mantissas over the common exponent *)
    unfold value_le in Hv. set (k := Z.min e1 e2) in *.
    assert (Hk1 : 0 <= e1 - k) by (unfold k; lia).
    assert (Hk2 : 0 <= e2 - k) by (unfold k; lia).
    rewrite <- (rne_scale m1 (E1 - e1) (e1 - k)) by lia.
    rewrite <- (rne_scale m2 (E1 - e2) (e2 - k)) by lia.
    replace (E1 - e1 + (e1 - k)) with (E1 - k) by lia.
    replace (E1 - e2 + (e2 - k)) with (E1 - k) by lia.
    apply rne_mono; [unfold k; lia | exact Hv].
  - apply finish_le_next; [lia | lia |].
    split; [apply Hq2lo; lia | exact Hq2p].
Qed.

(** ** Canonical representations *)

Lemma valid_canonical (x : float) : valid_binary prec emax x = true -> canonical x.
Proof.
  destruct x as [s | s | | s M E]; cbn [valid_binary canonical]; auto.
  unfold bounded, canonical_mantissa. intros H.
  apply andb_prop in H. destruct H as [Hc _].
  apply Z.eqb_eq in Hc.
  change (SpecFloat.fexp prec emax (Zpos (digits2_pos M) + E))
    with (fexp (digits (Zpos M) + E)) in Hc.
  rewrite fexp_spec in Hc.
  destruct (digits_pos (Zpos M) ltac:(lia)) as (Hd & Hlo & Hhi).
  split; [| split].
  - eapply Z.lt_le_trans; [exact Hhi |]. apply Z.pow_le_mono_r; lia.
  - lia.
  - intros HE. eapply Z.le_trans; [| exact Hlo]. apply Z.pow_le_mono_r; lia.
Qed.

Lemma rounded_canonical (m e : Z) :
  0 < m -> e <= target m e -> canonical (rounded m e).
Proof.
  intros Hm Hn. destruct (target_bounds m e Hm Hn) as ([Hq0 Hqp] & Hlo).
  pose proof (fexp_ge_emin (digits m + e)) as HE. fold (target m e) in HE.
  assert (Hhalf : 0 < 2 ^ (prec - 1)) by (apply Z.pow_pos_nonneg; unfold prec; lia).
  unfold rounded, finish.
  destruct (Z.eqb_spec (rne m (target m e - e)) 0); [exact I |].
  destruct (Z.ltb_spec (rne m (target m e - e)) (2 ^ prec)).
  - destruct (target m e <=? emax - prec); [| exact I]. cbn [canonical].
    rewrite Z2Pos.id by lia. auto.
  - destruct (target m e + 1 <=? emax - prec); [| exact I]. cbn [canonical].
    rewrite Z2Pos.id by lia. repeat split; try lia;
      try (apply Z.pow_lt_mono_r; unfold prec; lia).
Qed.



Lemma ltb_value_lt (ma mb : positive) (ea eb : Z) :
  canonical (S754_finite false ma ea) -> canonical (S754_finite false mb eb) ->
  ltb (S754_finite false ma ea) (S754_finite false mb eb) = true ->
  Zpos ma * 2 ^ (ea - Z.min ea eb) < Zpos mb * 2 ^ (eb - Z.min ea eb).
Proof.
  intros (Ha & Hea & _) (Hb & Heb & Hbn).
  unfold ltb, SFltb. cbn [SFcompare].
  change (Pos.compare_cont Eq ma mb) with (Pos.compare ma mb).
  destruct (Z.compare_spec ea eb) as [-> | Hlt | Hgt]; try discriminate.
  - destruct (Pos.compare_spec ma mb); try discriminate. intros _.
    rewrite Z.min_id, Z.sub_diag, Z.pow_0_r. lia.
  - intros _. rewrite Z.min_l by lia. rewrite Z.sub_diag, Z.pow_0_r.
    specialize (Hbn ltac:(lia)).
    assert (2 ^ 1 <= 2 ^ (eb - ea)) by (apply Z.pow_le_mono_r; lia).
    change (2 ^ 1) with 2 in *.
    assert (2 ^ prec = 2 * 2 ^ (prec - 1)) by reflexivity.
    nia.
Qed.

(** ** Conversions from integers *)

Lemma iter_xO_spec (m d : positive) : Zpos (Pos.iter xO m d) = Zpos m * 2 ^ Zpos d.
Proof.
  induction d as [| d IH] using Pos.peano_ind.
  - cbn [Pos.iter]. rewrite Pos2Z.inj_xO. change (2 ^ 1) with 2. lia.
  - rewrite Pos.iter_succ, Pos2Z.inj_xO, IH, Pos2Z.inj_succ, Z.pow_succ_r by lia. lia.
Qed.

Lemma digits_shift (m d : Z) : 0 < m -> 0 <= d -> digits (m * 2 ^ d) = digits m + d.
Proof.
  intros Hm Hd. destruct (digits_pos m Hm) as (Hdm & Hlo & Hhi).
  assert (H2 : 0 < 2 ^ d) by (apply Z.pow_pos_nonneg; lia).
  apply digits_unique; [lia |].
  replace (digits m + d - 1) with (digits m - 1 + d) by lia.
  rewrite !Z.pow_add_r by lia. nia.
Qed.

Lemma binary_round_spec (m : positive) (e : Z) :
  exists m' e',
    0 < m' /\ e' <= target m' e' /\ target m' e' = target (Zpos m) e /\
    e' <= e /\ m' = Zpos m * 2 ^ (e - e') /\
    binary_round prec emax false m e = rounded m' e'.
Proof.
  unfold binary_round, shl_align.
  change (SpecFloat.fexp prec emax (Zpos (digits2_pos m) + e)) with (target (Zpos m) e).
  set (T := target (Zpos m) e).
  destruct (T - e) as [| d | d] eqn:Ed.
  - exists (Zpos m), e. fold T. rewrite Z.sub_diag, Z.pow_0_r.
    repeat split; try lia. apply round_aux_spec; [lia | fold T; lia].
  - exists (Zpos m), e. fold T. rewrite Z.sub_diag, Z.pow_0_r.
    repeat split; try lia. apply round_aux_spec; [lia | fold T; lia].
  - assert (Hm' : Zpos (Pos.iter xO m d) = Zpos m * 2 ^ (e - T)).
    { rewrite iter_xO_spec. f_equal. f_equal. lia. }
    assert (HT : target (Zpos (Pos.iter xO m d)) T = T).
    { unfold target at 1. rewrite Hm', digits_shift by lia.
      replace (digits (Zpos m) + (e - T) + T) with (digits (Zpos m) + e) by lia.
      reflexivity. }
    exists (Zpos (Pos.iter xO m d)), T.
    repeat split; try lia.
    apply round_aux_spec; lia.
Qed.





(** ** The order of the non-negative floats, by keys *)







(** ** Multiplication by a fixed non-negative step *)

Lemma digits_half : digits (2 ^ (prec - 1)) = prec.
Proof. reflexivity. Qed.





(** ** Sign of quotients and differences *)


Lemma shl_align_value (m : positive) (e ez : Z) :
  ez <= e -> Zpos (fst (shl_align m e ez)) = Zpos m * 2 ^ (e - ez).
Proof.
  intros H. unfold shl_align. destruct (ez - e) as [| d | d] eqn:E; cbn [fst].
  - replace (e - ez) with 0 by lia. rewrite Z.pow_0_r. lia.
  - lia.
  - rewrite iter_xO_spec. f_equal. f_equal. lia.
Qed.

Lemma sub_nonneg (D sd : float) :
  canonical D -> canonical sd ->
  ltb zero sd = true -> ltb sd D = true -> nonneg (sub D sd).
Proof.
  intros HcD Hcs H0 Hlt.
  destruct sd as [s | s | | s ms es]; try discriminate H0.
  - destruct s; [discriminate H0 |]. destruct D as [t | [] | | [] mD eD]; discriminate Hlt.
  - destruct s; [discriminate H0 |].
    destruct D as [t | t | | t mD eD]; try discriminate Hlt.
    + destruct t; [discriminate Hlt | reflexivity].
    + destruct t; [discriminate Hlt |].
      pose proof (ltb_value_lt ms mD es eD Hcs HcD Hlt) as Hv.
      unfold sub, SFsub. cbn [cond_Zopp].
      apply normalize_nonneg.
      rewrite !shl_align_value by lia.
      rewrite (Z.min_comm eD es). lia.
Qed.

(** ** The clamped multiples of the step *)




Lemma div_finite_nonneg (a : float) (M : positive) (E : Z) :
  nonneg a -> nonneg (div a (S754_finite false M E)).
Proof.
  intros Ha.
  destruct a as [s | s | | s ma ea]; cbn [nonneg] in Ha; try contradiction; subst;
    try (cbn; auto; fail).
  unfold div, SFdiv. cbn [xorb]. unfold SFdiv_core_binary.
  match goal with
  | |- context [IntDef.Z.div_eucl ?a ?b] =>
      assert (Hm' : 0 <= a);
      [ | pose proof (Z.div_pos a b Hm' ltac:(lia)) as Hq;
          change (a / b) with (fst (IntDef.Z.div_eucl a b)) in Hq;
          destruct (IntDef.Z.div_eucl a b) as [q r]; cbn [fst] in Hq ]
  end.
  - match goal with
    | |- 0 <= match ?s with Z0 => _ | Zpos _ => _ | Zneg _ => _ end =>
        destruct s; try lia
    end.
    apply Z.shiftl_nonneg. lia.
  - apply round_aux_nonneg. exact Hq.
Qed.

(** A valid finite value is what rounding its own mantissa gives. *)
Lemma valid_rounded (M : positive) (E : Z) :
  valid_binary prec emax (S754_finite false M E) = true ->
  S754_finite false M E = rounded (Zpos M) E /\ target (Zpos M) E = E /\
  E <= emax - prec.
Proof.
  intros Hv. pose proof (valid_canonical _ Hv) as (Hlt & _).
  cbn [valid_binary] in Hv. unfold bounded, canonical_mantissa in Hv.
  apply andb_prop in Hv. destruct Hv as [Hc Hb].
  apply Z.eqb_eq in Hc. apply Z.leb_le in Hb.
  change (SpecFloat.fexp prec emax (Zpos (digits2_pos M) + E))
    with (target (Zpos M) E) in Hc.
  split; [| split; [exact Hc | exact Hb]].
  unfold rounded. rewrite Hc, Z.sub_diag.
  assert (Hr : rne (Zpos M) 0 = Zpos M).
  { unfold rne, loc_of_rem. rewrite Z.pow_0_r, Z.div_1_r, Z.mod_1_r. reflexivity. }
  rewrite Hr. unfold finish.
  destruct (Z.eqb_spec (Zpos M) 0); [lia |].
  destruct (Z.ltb_spec (Zpos M) (2 ^ prec)); [| lia].
  destruct (Z.leb_spec E (emax - prec)); [| lia].
  reflexivity.
Qed.

(** ** Halving *)

Lemma of_int_two : of_int 2 = S754_finite false (Z.to_pos (2 ^ (prec - 1))) (2 - prec).
Proof. reflexivity. Qed.

(** Rounding a small mantissa at the least exponent shifts nothing. *)
Lemma round_aux_least (q : Z) (l : location) :
  0 <= q < 2 ^ (prec - 1) ->
  binary_round_aux prec emax false q emin l = finish (round_nearest_even q l) emin.
Proof.
  intros [Hq0 Hq].
  assert (Hfexp : forall k, 0 <= k <= 2 ^ (prec - 1) ->
            SpecFloat.fexp prec emax (Zdigits2 k + emin) - emin = 0).
  { intros k [Hk0 Hk].
    change (SpecFloat.fexp prec emax (Zdigits2 k + emin)) with (fexp (digits k + emin)).
    rewrite fexp_spec.
    destruct (Z.eq_dec k 0) as [-> | Hne]; [change (digits 0) with 0; unfold prec; lia |].
    pose proof (digits_le k (2 ^ (prec - 1)) ltac:(lia) Hk) as Hd.
    rewrite digits_half in Hd. lia. }
  unfold binary_round_aux, shr_fexp.
  rewrite (Hfexp q) by lia. cbn [shr].
  assert (Hloc : loc_of_shr_record (shr_record_of_loc q l) = l)
    by (destruct l as [| []]; reflexivity).
  assert (Hm : shr_m (shr_record_of_loc q l) = q)
    by (destruct l as [| []]; reflexivity).
  rewrite Hloc, Hm.
  set (q' := round_nearest_even q l).
  assert (Hq' : 0 <= q' <= 2 ^ (prec - 1)).
  { unfold q', round_nearest_even. destruct l as [| []]; try lia.
    destruct (Z.even q); lia. }
  rewrite (Hfexp q') by exact Hq'. cbn [shr shr_record_of_loc shr_m].
  unfold finish.
  assert (Hlt : 2 ^ (prec - 1) < 2 ^ prec) by (apply Z.pow_lt_mono_r; unfold prec; lia).
  destruct q' as [| p | p]; [reflexivity | | lia].
  destruct (Z.eqb_spec (Zpos p) 0); [lia |].
  destruct (Z.ltb_spec (Zpos p) (2 ^ prec)); [| lia].
  reflexivity.
Qed.

Lemma div_core_two (M : positive) (E : Z) :
  valid_binary prec emax (S754_finite false M E) = true ->
  SFdiv_core_binary prec emax (Zpos M) E (2 ^ (prec - 1)) (2 - prec)
  = if E =? emin
    then (Zpos M / 2, emin, if Z.even (Zpos M) then loc_Exact else loc_Inexact Eq)
    else (Zpos M * 2 ^ (E - 1 - Z.max (E - 2) emin), Z.max (E - 2) emin, loc_Exact).
Proof.
  intros Hv. pose proof (valid_canonical _ Hv) as (Hlt & Hge & Hnorm).
  unfold SFdiv_core_binary.
  change (Zdigits2 (2 ^ (prec - 1))) with prec.
  change (Zdigits2 (Zpos M)) with (digits (Zpos M)).
  change (SpecFloat.fexp prec emax) with fexp.
  rewrite fexp_spec.
  destruct (digits_pos (Zpos M) ltac:(lia)) as (Hd & Hlo & Hhi).
  assert (Hdle : digits (Zpos M) <= prec).
  { destruct (Z.le_gt_cases (digits (Zpos M)) prec) as [H | H]; [exact H |].
    exfalso. assert (2 ^ prec <= 2 ^ (digits (Zpos M) - 1)) by (apply Z.pow_le_mono_r; lia).
    lia. }
  destruct (Z.eqb_spec E emin) as [-> | Hne].
  - replace (Z.min (Z.max (digits (Zpos M) + emin - (prec + (2 - prec)) - prec) emin)
                   (emin - (2 - prec))) with emin by (unfold prec in *; lia).
    replace (emin - (2 - prec) - emin) with (prec - 2) by lia.
    change (prec - 2) with 51. cbn match.
    rewrite Z.shiftl_mul_pow2 by lia.
    change (2 ^ (prec - 1)) with (2 * 2 ^ 51).
    pose proof (Z.div_mul_cancel_r (Zpos M) 2 (2 ^ 51) ltac:(lia) ltac:(lia)) as Hq.
    pose proof (Z.mul_mod_distr_r (Zpos M) 2 (2 ^ 51) ltac:(lia) ltac:(lia)) as Hr.
    change (Zpos M * 2 ^ 51 / (2 * 2 ^ 51))
      with (fst (IntDef.Z.div_eucl (Zpos M * 2 ^ 51) (2 * 2 ^ 51))) in Hq.
    change ((Zpos M * 2 ^ 51) mod (2 * 2 ^ 51))
      with (snd (IntDef.Z.div_eucl (Zpos M * 2 ^ 51) (2 * 2 ^ 51))) in Hr.
    destruct (IntDef.Z.div_eucl (Zpos M * 2 ^ 51) (2 * 2 ^ 51)) as [q r].
    cbn [fst snd] in Hq, Hr. subst q r.
    rewrite Zmod_even. unfold new_location.
    change (Z.even (2 * 2 ^ 51)) with true. cbn match. unfold new_location_even.
    destruct (Z.even (Zpos M)); reflexivity.
  - assert (Hgt : emin < E) by lia. specialize (Hnorm Hgt).
    assert (Hdig : digits (Zpos M) = prec).
    { apply digits_unique; [unfold prec; lia | lia]. }
    rewrite Hdig.
    replace (Z.min (Z.max (prec + E - (prec + (2 - prec)) - prec) emin) (E - (2 - prec)))
      with (Z.max (E - 2) emin) by (unfold prec in *; lia).
    set (e' := Z.max (E - 2) emin).
    assert (Hs : E - (2 - prec) - e' = (E - 1 - e') + (prec - 1)) by lia.
    assert (Hk : 0 <= E - 1 - e') by (unfold e'; lia).
    rewrite Hs.
    destruct (E - 1 - e' + (prec - 1)) as [| p | p] eqn:Hp; try (unfold prec in *; lia).
    rewrite <- Hp. rewrite Z.shiftl_mul_pow2 by (unfold prec in *; lia).
    rewrite Z.pow_add_r by (unfold prec; lia).
    rewrite Z.mul_assoc.
    assert (Hpow : 0 < 2 ^ (prec - 1)) by (apply Z.pow_pos_nonneg; unfold prec; lia).
    pose proof (Z.div_mul (Zpos M * 2 ^ (E - 1 - e')) (2 ^ (prec - 1)) ltac:(lia)) as Hq.
    pose proof (Z.mod_mul (Zpos M * 2 ^ (E - 1 - e')) (2 ^ (prec - 1)) ltac:(lia)) as Hr.
    set (a := Zpos M * 2 ^ (E - 1 - e') * 2 ^ (prec - 1)) in *.
    change (a / 2 ^ (prec - 1)) with (fst (IntDef.Z.div_eucl a (2 ^ (prec - 1)))) in Hq.
    change (a mod 2 ^ (prec - 1)) with (snd (IntDef.Z.div_eucl a (2 ^ (prec - 1)))) in Hr.
    destruct (IntDef.Z.div_eucl a (2 ^ (prec - 1))) as [q r].
    cbn [fst snd] in Hq, Hr. subst q r.
    reflexivity.
Qed.

Lemma div_two_le (a : float) :
  valid_binary prec emax a = true -> nonneg a -> leb (div a (of_int 2)) a = true.
Proof.
  intros Hv Ha. rewrite of_int_two.
  destruct a as [s | s | | s M E]; cbn [nonneg] in Ha; try contradiction; subst;
    try reflexivity.
  destruct (valid_rounded M E Hv) as (Hr & Ht & Hmax).
  pose proof (valid_canonical _ Hv) as (Hlt & Hge & Hnorm).
  unfold div, SFdiv. cbn [xorb].
  change (Zpos (Z.to_pos (2 ^ (prec - 1)))) with (2 ^ (prec - 1)).
  rewrite (div_core_two M E Hv).
  destruct (Z.eqb_spec E emin) as [-> | Hne].
  - assert (Hhalf : 0 <= Zpos M / 2 < 2 ^ (prec - 1)).
    { change (2 ^ prec) with (2 * 2 ^ (prec - 1)) in Hlt.
      split; [apply Z.div_pos; lia | apply Z.div_lt_upper_bound; lia]. }
    rewrite round_aux_least by exact Hhalf.
    rewrite Hr. unfold rounded. rewrite Ht, Z.sub_diag.
    assert (Hid : rne (Zpos M) 0 = Zpos M).
    { unfold rne, loc_of_rem. rewrite Z.pow_0_r, Z.div_1_r, Z.mod_1_r. reflexivity. }
    rewrite Hid. apply finish_le_same; [| lia].
    pose proof (Zmod_even (Zpos M)) as Hev.
    pose proof (Z.div_mod (Zpos M) 2 ltac:(lia)) as Hdm.
    destruct (Z.even (Zpos M)); cbn [round_nearest_even].
    + lia.
    + destruct (Z.even (Zpos M / 2)); lia.
  - assert (Hgt : emin < E) by lia.
    set (e' := Z.max (E - 2) emin).
    assert (Hk : 0 <= E - 1 - e') by (unfold e'; lia).
    assert (Hpow : 0 < 2 ^ (E - 1 - e')) by (apply Z.pow_pos_nonneg; lia).
    assert (Hdig : digits (Zpos M * 2 ^ (E - 1 - e')) = digits (Zpos M) + (E - 1 - e')).
    { apply digits_shift; lia. }
    assert (Hte : e' <= target (Zpos M * 2 ^ (E - 1 - e')) e').
    { unfold target. rewrite Hdig, fexp_spec.
      unfold target in Ht. rewrite fexp_spec in Ht. lia. }
    rewrite round_aux_spec by (try exact Hte; nia).
    fold (rounded (Zpos M * 2 ^ (E - 1 - e')) e').
    rewrite Hr. apply rounded_mono; try lia; try nia; try exact Hte.
    unfold value_le.
    replace (Z.min e' E) with e' by lia. rewrite Z.sub_diag, Z.pow_0_r.
    replace (E - e') with (1 + (E - 1 - e')) by lia.
    rewrite Z.pow_add_r by lia. change (2 ^ 1) with 2. nia.
Qed.

(** ** Valid results *)

Lemma canonical_valid (s : bool) (M : positive) (E : Z) :
  canonical (S754_finite s M E) -> E <= emax - prec ->
  valid_binary prec emax (S754_finite s M E) = true.
Proof.
  intros (Hlt & Hge & Hnorm) Hmax. cbn [valid_binary].
  unfold bounded, canonical_mantissa.
  apply andb_true_intro. split; [| apply Z.leb_le; exact Hmax].
  apply Z.eqb_eq.
  change (SpecFloat.fexp prec emax (Zpos (digits2_pos M) + E))
    with (fexp (digits (Zpos M) + E)).
  rewrite fexp_spec.
  destruct (digits_pos (Zpos M) ltac:(lia)) as (Hd & Hlo & Hhi).
  assert (Hdle : digits (Zpos M) <= prec).
  { destruct (Z.le_gt_cases (digits (Zpos M)) prec) as [H | H]; [exact H |].
    exfalso.
    assert (2 ^ prec <= 2 ^ (digits (Zpos M) - 1)) by (apply Z.pow_le_mono_r; lia).
    lia. }
  destruct (Z.eq_dec E emin) as [-> | Hne]; [lia |].
  assert (Hdig : digits (Zpos M) = prec).
  { apply digits_unique; [unfold prec; lia |].
    split; [apply Hnorm; lia | exact Hlt]. }
  lia.
Qed.

Lemma rounded_valid (m e : Z) :
  0 < m -> e <= target m e -> valid_binary prec emax (rounded m e) = true.
Proof.
  intros Hm Hn. pose proof (rounded_canonical m e Hm Hn) as Hc.
  unfold rounded, finish in *.
  destruct (rne m (target m e - e) =? 0); [reflexivity |].
  destruct (rne m (target m e - e) <? 2 ^ prec).
  - destruct (Z.leb_spec (target m e) (emax - prec)); [| reflexivity].
    now apply canonical_valid.
  - destruct (Z.leb_spec (target m e + 1) (emax - prec)); [| reflexivity].
    now apply canonical_valid.
Qed.

Lemma normalize_valid (z e : Z) :
  0 <= z -> valid_binary prec emax (binary_normalize prec emax z e false) = true.
Proof.
  intros H. destruct z as [| m | m]; [reflexivity | | lia].
  cbn [binary_normalize].
  destruct (binary_round_spec m e) as (m' & e' & H0 & Hn & _ & _ & _ & ->).
  now apply rounded_valid.
Qed.

Lemma sub_valid (D sd : float) :
  canonical D -> canonical sd ->
  ltb zero sd = true -> ltb sd D = true -> valid_binary prec emax (sub D sd) = true.
Proof.
  intros HcD Hcs H0 Hlt.
  destruct sd as [s | s | | s ms es]; try discriminate H0.
  - destruct s; [discriminate H0 |]. destruct D as [t | [] | | [] mD eD]; discriminate Hlt.
  - destruct s; [discriminate H0 |].
    destruct D as [t | t | | t mD eD]; try discriminate Hlt.
    + destruct t; [discriminate Hlt | reflexivity].
    + destruct t; [discriminate Hlt |].
      pose proof (ltb_value_lt ms mD es eD Hcs HcD Hlt) as Hv.
      unfold sub, SFsub. cbn [cond_Zopp].
      apply normalize_valid.
      rewrite !shl_align_value by lia.
      rewrite (Z.min_comm eD es). lia.
Qed.

(** ** Strict and weak order *)

Lemma ltb_leb_false (x y : float) : ltb x y = true -> leb y x = false.
Proof.
  unfold ltb, leb, SFltb, SFleb. rewrite (SFcompare_antisym x y).
  destruct (SFcompare x y) as [[] |]; cbn; congruence.
Qed.

Lemma leb_false_ltb (x y : float) :
  x <> S754_nan -> y <> S754_nan -> leb x y = false -> ltb y x = true.
Proof.
  intros Hx Hy H. destruct (ltb y x) eqn:E; [reflexivity |].
  rewrite (not_ltb_leb x y Hx Hy E) in H. discriminate H.
Qed.

Lemma positive_above (sd D : float) :
  ltb zero sd = true -> ltb sd D = true -> ltb zero D = true.
Proof.
  intros H0 Hlt.
  destruct sd as [s | [] | | [] ms es]; try discriminate H0;
    destruct D as [t | [] | | [] mD eD]; try discriminate Hlt; reflexivity.
Qed.

End Float64Facts.

(** * Properties of the planner over binary64 *)

Section Planner64Claims.

Import Float64 Rounding Planner64.
Local Open Scope Z_scope.

(** On valid inputs the guard of [plan] is passed. *)
Lemma plan64_valid (D sd : float) (N : Z) :
  ltb zero D = true -> 1 <= N -> ltb zero sd = true ->
  plan D N sd =
    if leb D sd then Ok [zero]
    else if N =? 1 then Ok [div (usable_span D sd) (of_int 2)]
    else Ok (map (fun i => clamp zero (usable_span D sd)
                             (mul (of_int i) (div (usable_span D sd) (of_int (N - 1)))))
                 (range N)).
Proof.
  intros HD HN Hsd. unfold plan.
  rewrite (ltb_leb_false _ _ HD), (ltb_leb_false _ _ Hsd).
  replace (N <? 1) with false by (symmetry; apply Z.ltb_ge; lia).
  reflexivity.
Qed.

(** What [plan] computes on a valid source longer than one sample. *)
Lemma plan64_valid_long (D sd : float) (N : Z) :
  ltb zero sd = true -> ltb sd D = true -> 1 <= N ->
  plan D N sd =
    if N =? 1 then Ok [div (usable_span D sd) (of_int 2)]
    else Ok (map (fun i => clamp zero (usable_span D sd)
                             (mul (of_int i) (div (usable_span D sd) (of_int (N - 1)))))
                 (range N)).
Proof.
  intros Hsd HD HN.
  rewrite plan64_valid by (try assumption; eapply positive_above; eassumption).
  rewrite (ltb_leb_false _ _ HD). reflexivity.
Qed.



(** The short-source rule and the refusal of invalid inputs are the same
    over binary64 as in exact arithmetic. *)
Lemma plan64_short_source (D sd : float) (N : Z) :
  ltb zero D = true -> leb D sd = true -> 1 <= N -> plan D N sd = Ok [zero].
Proof.
  intros HD Hshort HN.
  assert (Hsd : ltb zero sd = true).
  { destruct D as [s | [] | | [] mD eD]; try discriminate HD;
      destruct sd as [t | [] | | [] ms es]; try discriminate Hshort; reflexivity. }
  rewrite plan64_valid by assumption. now rewrite Hshort.
Qed.

Lemma plan64_invalid_input_iff (D sd : float) (N : Z) :
  plan D N sd = Err InvalidInput
  <-> leb D zero = true \/ N < 1 \/ leb sd zero = true.
Proof.
  unfold plan.
  destruct (leb D zero || (N <? 1) || leb sd zero) eqn:E.
  - split; [intros _ | reflexivity].
    rewrite !orb_true_iff, Z.ltb_lt in E. tauto.
  - split.
    + destruct (leb D sd); [discriminate |]. destruct (N =? 1); discriminate.
    + intros H. rewrite <- Z.ltb_lt, <- !orb_true_iff in H.
      rewrite orb_assoc in H. congruence.
Qed.




(** In binary64 the clamp is not idle: for a source of 14.007 seconds and
    four samples of 2 seconds, the product [3 * step] exceeds the usable
    span by one unit in the last place, and the last start is the span. *)
Lemma plan64_clamp_moves_last_start :
  let D := div (of_int 14007) (of_int 1000) in
  let span := usable_span D (of_int 2) in
  let step := div span (of_int 3) in
  ltb span (mul (of_int 3) step) = true /\
  plan D 4 (of_int 2) = Ok [zero; step; mul (of_int 2) step; span].
Proof. cbv zeta. split; vm_compute; reflexivity. Qed.



(** C4, as stated, fails in two ways.  On a source shorter than one sample
    (Scenario B) the plan is [[0]] and the sample [[0, 2]] overruns the
    duration [1.5].  On a longer source the last start is the usable span
    as computed, and that is rounded: for [D = 1 + 3 * 2^-52] and
    [sd = 3 * 2^-53] the span [1 + 3 * 2^-53] rounds up to [1 + 2^-51],
    and the sample starting there ends after [D]. *)
Lemma plan64_intervals_overrun :
  (let D := scaled 3 (-1) in
   let sd := of_int 2 in
   valid D = true /\ valid sd = true /\
   ltb zero D = true /\ 1 <= 4 /\ ltb zero sd = true /\
   plan D 4 sd = Ok [zero] /\
   ~ Forall (interval_inside D sd) [zero]) /\
  (let D := scaled (2 ^ 52 + 3) (-52) in
   let sd := scaled 3 (-53) in
   let t := scaled (2 ^ 51 + 1) (-51) in
   valid D = true /\ valid sd = true /\
   ltb zero D = true /\ 1 <= 2 /\ ltb zero sd = true /\ ltb sd D = true /\
   plan D 2 sd = Ok [zero; t] /\
   ltb D (add t sd) = true /\
   ~ Forall (interval_inside D sd) [zero; t]).
Proof.
  cbv zeta. split.
  - split; [reflexivity |]. split; [reflexivity |]. split; [reflexivity |].
    split; [lia |]. split; [reflexivity |]. split; [vm_compute; reflexivity |].
    intros H. inversion H as [| t l [_ Hin] _]; subst.
    vm_compute in Hin. discriminate Hin.
  - split; [reflexivity |]. split; [reflexivity |]. split; [reflexivity |].
    split; [lia |]. split; [reflexivity |]. split; [reflexivity |].
    split; [vm_compute; reflexivity |]. split; [vm_compute; reflexivity |].
    intros H. inversion H as [| t0 l0 _ Htl]; subst.
    inversion Htl as [| t1 l1 [_ Hin] _]; subst.
    vm_compute in Hin. discriminate Hin.
Qed.

(** C4 (amended): for every valid input (binary64 duration > 0,
    sample_count >= 1, sample_duration > 0), [plan] returns timestamps [t]
    with [0 <= t], and with [t <= duration - sample_duration], the usable
    span as computed, whenever the source is longer than one sample. *)
Theorem plan64_timestamps_in_span (D sd : float) (N : Z) :
  valid D = true -> valid sd = true ->
  ltb zero D = true -> 1 <= N -> ltb zero sd = true ->
  exists ts, plan D N sd = Ok ts /\
             Forall (fun t => leb zero t = true /\
                              (ltb sd D = true -> leb t (usable_span D sd) = true))
                    ts.
Proof.
  intros HvD Hvs HD HN Hsd.
  rewrite plan64_valid by assumption.
  destruct (leb D sd) eqn:Hshort.
  - eexists. split; [reflexivity |]. constructor; [| constructor].
    split; [reflexivity |]. intros Hlong.
    rewrite (ltb_leb_false _ _ Hlong) in Hshort. discriminate Hshort.
  - assert (Hlong : ltb sd D = true).
    { apply leb_false_ltb; [| | exact Hshort].
      - eapply ltb_not_nan_r. exact HD.
      - eapply ltb_not_nan_r. exact Hsd. }
    assert (Hs : nonneg (usable_span D sd)).
    { apply sub_nonneg; try assumption; now apply valid_canonical. }
    assert (Hv : valid_binary prec emax (usable_span D sd) = true).
    { apply sub_valid; try assumption; now apply valid_canonical. }
    destruct (N =? 1) eqn:E1.
    + eexists. split; [reflexivity |]. constructor; [| constructor].
      split.
      * apply nonneg_leb_zero. rewrite of_int_two. now apply div_finite_nonneg.
      * intros _. now apply div_two_le.
    + eexists. split; [reflexivity |].
      apply List.Forall_forall. intros t Ht.
      apply in_map_iff in Ht. destruct Ht as (i & <- & _).
      destruct (clamp_within (usable_span D sd)
                  (mul (of_int i) (div (usable_span D sd) (of_int (N - 1)))) Hs)
        as [H0 H1].
      split; [exact H0 | intros _; exact H1].
Qed.

(** C4 (amended), at Scenario A. *)
Lemma plan64_timestamps_in_span_witness :
  valid (of_int 10) = true /\ valid (of_int 2) = true /\
  ltb zero (of_int 10) = true /\ 1 <= 4 /\ ltb zero (of_int 2) = true /\
  exists ts, plan (of_int 10) 4 (of_int 2) = Ok ts /\
             Forall (fun t => leb zero t = true /\
                              (ltb (of_int 2) (of_int 10) = true ->
                               leb t (usable_span (of_int 10) (of_int 2)) = true))
                    ts.
Proof.
  split; [reflexivity |]. split; [reflexivity |]. split; [reflexivity |].
  split; [lia |]. split; [reflexivity |].
  apply (plan64_timestamps_in_span (of_int 10) (of_int 2) 4);
    [reflexivity | reflexivity | reflexivity | lia | reflexivity].
Defined.

(** C5: for [0 < sd < D], [plan(D, 1, sd)] is the single timestamp
    [(D - sd) / 2]; in particular [plan(20, 1, 2) = [9.0]]. *)
Theorem plan64_single_centered :
  (forall D sd : float,
      ltb zero sd = true -> ltb sd D = true ->
      plan D 1 sd = Ok [div (usable_span D sd) (of_int 2)]) /\
  plan (of_int 20) 1 (of_int 2) = Ok [of_int 9].
Proof.
  split.
  - intros D sd Hsd HD. rewrite plan64_valid_long by (try assumption; lia).
    reflexivity.
  - vm_compute. reflexivity.
Qed.

(** C5, at Scenario C. *)
Lemma plan64_single_centered_witness :
  ltb zero (of_int 2) = true /\ ltb (of_int 2) (of_int 20) = true /\
  plan (of_int 20) 1 (of_int 2)
  = Ok [div (usable_span (of_int 20) (of_int 2)) (of_int 2)].
Proof.
  split; [reflexivity |]. split; [reflexivity |].
  apply (proj1 plan64_single_centered (of_int 20) (of_int 2)); reflexivity.
Defined.

End Planner64Claims.

(** * Properties of the handler *)

Import Handler.

Section HandlerFacts.

Local Open Scope string_scope.

Lemma split_length (sep : ascii) (s : string) :
  length (Py.split sep s) = S (Py.count_char sep s).
Proof.
  induction s as [| d s IH]; [reflexivity |].
  cbn [Py.split Py.count_char].
  destruct (Py.is_char d sep); cbn [length Nat.add].
  - now rewrite IH.
  - destruct (Py.split sep s) as [| p ps]; [discriminate IH |].
    exact IH.
Qed.

Lemma unpack2_mismatch (parts : list string) (s : state) :
  length parts <> 2%nat ->
  unpack2 parts s = (Err (ValueError (UnpackMismatch 2 (length parts))), s).
Proof.
  intros H. destruct parts as [| a [| b [| c l]]]; try reflexivity.
  now contradiction H.
Qed.

Lemma unpack2_pair (parts : list string) :
  length parts = 2%nat -> exists a b, parts = [a; b].
Proof.
  destruct parts as [| a [| b [| c l]]]; try discriminate. eauto.
Qed.

End HandlerFacts.

Section HandlerClaims.

Local Open Scope string_scope.
Local Open Scope nat_scope.

#[local] Arguments String.append : simpl never.
#[local] Arguments Py.path_join : simpl never.
#[local] Arguments Py.basename : simpl never.
#[local] Arguments Py.split : simpl never.

(** Membership of an effect in a trace that is known explicitly. *)
Ltac in_trace H :=
  cbn in H;
  repeat match type of H with
         | _ \/ _ => destruct H as [H | H]
         | False => contradiction H
         | _ = _ => first [discriminate H | inversion H; subst; clear H]
         end.

Ltac unfold_monad :=
  unfold bind, try_except, try_finally, call, log, emit, lift, ret, raise,
    log_pending_stderr, set_e, is_exception.

(** One step of the handler: case on the outcome of the next collaborator,
    on the class of a caught exception, or on a test. *)
Ltac step :=
  match goal with
  | |- context [match ?r with Ok _ => _ | Err _ => _ end] =>
      lazymatch r with
      | context [match _ with _ => _ end] => fail
      | _ => destruct r eqn:?
      end
  | |- context [is_ffmpeg_error ?e] => is_var e; destruct e
  | |- context [if ?c then _ else _] =>
      lazymatch c with
      | context [match _ with _ => _ end] => fail
      | _ => destruct c eqn:?
      end
  end; cbn.

(** Enter the handler: either line 25 raises, or the key has a name and
    an extension and the body runs. *)
Ltac enter_handler w event :=
  unfold effects, outcome, invoke, lambda_handler;
  let E := fresh "E" in
  destruct (Nat.eq_dec
              (length (Py.split "." (Py.basename (unquote_plus w (object_key event)))))
              2) as [E | E];
  [ let a := fresh "file_name" in
    let b := fresh "file_ext" in
    destruct (unpack2_pair _ E) as (a & b & ->); unfold_monad; cbn
  | unfold bind; rewrite unpack2_mismatch by exact E; cbn ].

Lemma duration_of_not_engine_error (w : World) info (e : exn) :
  duration_of w info = Err e -> is_ffmpeg_error e = false.
Proof.
  unfold duration_of. intros H.
  destruct (info !! "format") as [fmt |]; [| now inversion H].
  destruct (fmt !! "duration") as [d |]; [| now inversion H].
  destruct (float w d); [discriminate H | now inversion H].
Qed.

(** C7, as stated, fails for an unparseable duration: the engine answers
    ["N/A"], the handler ends with the conversion error, which is not the
    engine's error and carries no diagnostic text; and the temporary
    output file had been created before the probe. *)
Lemma unparseable_duration_raises_value_error :
  let w := Scenarios.no_duration in
  let run := invoke w Scenarios.defaults Scenarios.environment Scenarios.clip_uploaded in
  In (Probe "/tmp/clip.mp4") (snd run) /\
  probe w "/tmp/clip.mp4" = Ok (Scenarios.probe_output "N/A") /\
  float w "N/A" = None /\
  fst run = Err (ValueError (InvalidFloatLiteral "N/A")) /\
  ~ (exists cmd diagnostic, fst run = Err (FfmpegError cmd diagnostic)) /\
  In TempFile (snd run).
Proof.
  vm_compute. repeat split; try tauto.
  intros (cmd & diagnostic & H). discriminate H.
Qed.

(** C7 (amended): when the probe step has run and failed with an exception
    [e] - [ffmpeg.probe] raised, or the duration is missing or unparseable -
    the invocation ends by raising that same [e]; an [ffmpeg.Error] has its
    diagnostic text logged and is re-raised with it, whereas a missing or
    unparseable duration surfaces as a [KeyError] or [ValueError], never as
    the engine's error; no later step (plan, generate, upload, cleanup)
    runs, the effects being exactly the temporary output file, the
    download, the probe and the error log. *)
Theorem probe_failure_ends_invocation
        (w : World) (cfg : Config) (env : gmap string string) (event : S3Event)
        (e : exn) :
  let key := unquote_plus w (object_key event) in
  let tmp := Py.path_join "/tmp" (Py.basename key) in
  In (Probe tmp) (effects w cfg env event) ->
  probe_step w tmp = Err e ->
  outcome w cfg env event = Err e /\
  effects w cfg env event =
    ([TempFile;
      Log INFO (Text ("Downloading file " ++ key ++ " from bucket " ++ bucket_name event));
      Download (bucket_name event) key tmp;
      Probe tmp] ++ probe_failure_log e)%list /\
  Forall (fun x => later_step x = false) (effects w cfg env event) /\
  (forall info, probe w tmp = Ok info -> is_ffmpeg_error e = false).
Proof.
  intros key tmp. subst key tmp. unfold probe_step.
  enter_handler w event; [| tauto].
  step; [| intros H; in_trace H].
  step; [| intros H; in_trace H].
  step.
  - intros _ Hd.
    pose proof (duration_of_not_engine_error _ _ _ Hd) as Hne.
    rewrite Hd. destruct e; try discriminate Hne; cbn.
    all: repeat split; try reflexivity; try (intros; reflexivity).
    all: repeat constructor.
  - intros _ He. inversion He; subst; clear He.
    destruct e; cbn.
    all: repeat split; try reflexivity; try (intros; discriminate).
    all: repeat constructor.
Qed.

(** C7 (amended), on a file the engine rejects. *)
Lemma probe_failure_ends_invocation_witness :
  let w := Scenarios.not_a_video in
  let e := FfmpegError "ffprobe" "Invalid data found when processing input" in
  let run := invoke w Scenarios.defaults Scenarios.environment Scenarios.clip_uploaded in
  In (Probe "/tmp/clip.mp4") (snd run) /\
  probe_step w "/tmp/clip.mp4" = Err e /\
  fst run = Err e /\
  In (Log ERROR (Text "Invalid data found when processing input")) (snd run) /\
  Forall (fun x => later_step x = false) (snd run).
Proof.
  cbv zeta.
  assert (Hin : In (Probe "/tmp/clip.mp4")
                   (effects Scenarios.not_a_video Scenarios.defaults
                            Scenarios.environment Scenarios.clip_uploaded)).
  { vm_compute. tauto. }
  assert (Hstep : probe_step Scenarios.not_a_video "/tmp/clip.mp4"
                  = Err (FfmpegError "ffprobe" "Invalid data found when processing input")).
  { reflexivity. }
  destruct (probe_failure_ends_invocation
              Scenarios.not_a_video Scenarios.defaults Scenarios.environment
              Scenarios.clip_uploaded _ Hin Hstep) as (Hout & Heff & Hlater & _).
  split; [exact Hin |]. split; [exact Hstep |]. split; [exact Hout |].
  split; [| exact Hlater].
  change (snd (invoke Scenarios.not_a_video Scenarios.defaults
                      Scenarios.environment Scenarios.clip_uploaded))
    with (effects Scenarios.not_a_video Scenarios.defaults
                  Scenarios.environment Scenarios.clip_uploaded).
  rewrite Heff. cbn. tauto.
Defined.

(** C8: an option absent from the environment takes its default:
    [samples = 4], [sample_duration = 2], [format = "mp4"], and [scale]
    is unset; with these absent the configuration loads. *)
Theorem absent_options_take_defaults (env : gmap string string) :
  (forall cfg, load_config env = Ok cfg ->
               (env !! "samples" = None -> samples cfg = 4%Z) /\
               (env !! "sample_duration" = None -> sample_duration cfg = 2%Z) /\
               (env !! "format" = None -> format cfg = "mp4") /\
               (env !! "scale" = None -> scale cfg = None)) /\
  (env !! "samples" = None -> env !! "sample_duration" = None ->
   exists cfg, load_config env = Ok cfg) /\
  load_config ∅ =
    Ok {| samples := 4; sample_duration := 2; scale := None; format := "mp4";
          s3_output_prefix := "output"; debug := false |}.
Proof.
  split; [| split; [| reflexivity]].
  - intros cfg. unfold load_config, Py.getenv_default, Py.getenv.
    destruct (int_or_raise (default "4" (env !! "samples"))) as [n |] eqn:En;
      [| discriminate].
    destruct (int_or_raise (default "2" (env !! "sample_duration"))) as [d |] eqn:Ed;
      [| discriminate].
    intros H. inversion H; subst; clear H. cbn.
    repeat split.
    + intros Ha. rewrite Ha in En. now inversion En.
    + intros Ha. rewrite Ha in Ed. now inversion Ed.
    + intros Ha. now rewrite Ha.
    + intros Ha. exact Ha.
  - intros Hs Hd. unfold load_config, Py.getenv_default.
    rewrite Hs, Hd. cbn. eauto.
Qed.

(** C8, where only the output bucket is configured. *)
Lemma absent_options_take_defaults_witness :
  exists cfg, load_config Scenarios.environment = Ok cfg /\
              samples cfg = 4%Z /\ sample_duration cfg = 2%Z /\
              format cfg = "mp4" /\ scale cfg = None.
Proof.
  destruct (proj1 (proj2 (absent_options_take_defaults Scenarios.environment)))
    as [cfg Hcfg]; [reflexivity | reflexivity |].
  exists cfg. split; [exact Hcfg |].
  destruct (proj1 (absent_options_take_defaults Scenarios.environment) cfg Hcfg)
    as (H1 & H2 & H3 & H4).
  split; [apply H1; reflexivity |]. split; [apply H2; reflexivity |].
  split; [apply H3; reflexivity | apply H4; reflexivity].
Defined.

(** C9: when the basename of the (decoded) object key does not contain
    exactly one ['.'], [lambda_handler] raises at the unpacking of line 25,
    before the temporary file, the download or any other step; with exactly
    one ['.'] the handler gets past that line. *)
Theorem key_must_split_in_two
        (w : World) (cfg : Config) (env : gmap string string) (event : S3Event) :
  let name := Py.basename (unquote_plus w (object_key event)) in
  (Py.count_char "." name <> 1 ->
   invoke w cfg env event =
     (Err (ValueError (UnpackMismatch 2 (S (Py.count_char "." name)))), [])) /\
  (Py.count_char "." name = 1 ->
   exists rest, effects w cfg env event = TempFile :: rest).
Proof.
  intros name. subst name. split; intros H.
  - unfold invoke, lambda_handler, bind.
    rewrite unpack2_mismatch by (rewrite split_length; lia).
    now rewrite split_length.
  - enter_handler w event.
    + destruct (NamedTemporaryFile w); [| cbn; eauto].
      match goal with
      | |- context [snd (let '(r, s) := ?m in _)] => destruct m as [r s] eqn:Em
      end.
      revert Em. repeat step.
      all: intros Em; inversion Em; subst; clear Em; cbn; eauto.
    + exfalso. apply E. rewrite split_length, H. reflexivity.
Qed.

(** C9, on the key [input/a.b.mp4]. *)
Lemma key_must_split_in_two_witness :
  Py.count_char "." (Py.basename "input/a.b.mp4") <> 1 /\
  invoke Scenarios.all_fine Scenarios.defaults Scenarios.environment
         Scenarios.two_dots_uploaded
  = (Err (ValueError (UnpackMismatch 2 3)), []).
Proof.
  split; [vm_compute; lia |].
  apply (proj1 (key_must_split_in_two Scenarios.all_fine Scenarios.defaults
                                      Scenarios.environment
                                      Scenarios.two_dots_uploaded)).
  vm_compute. lia.
Defined.

(** C10: whenever the upload of the output file has succeeded,
    [lambda_handler] returns the response with status 200, the input key,
    the output key and the bucket, whatever the deletion of the temporary
    input file does: a failing deletion is caught and logged as a warning,
    not raised. *)
Theorem upload_success_returns_200
        (w : World) (cfg : Config) (env : gmap string string) (event : S3Event)
        (file : string) (output_bucket : option string) (out_key : string) :
  let key := unquote_plus w (object_key event) in
  let tmp := Py.path_join "/tmp" (Py.basename key) in
  In (Upload file output_bucket out_key) (effects w cfg env event) ->
  upload_file w file output_bucket out_key = Ok tt ->
  outcome w cfg env event =
    Ok {| statusCode := 200;
          message := "Video preview generated successfully";
          input_key := key;
          output_key := out_key;
          bucket := bucket_name event |} /\
  (forall e, path_exists w tmp = true -> remove w tmp = Err e ->
             In (Log WARNING (WithExn "Failed to clean up temporary file: " e))
                (effects w cfg env event)).
Proof.
  intros key tmp. subst key tmp.
  enter_handler w event; [| tauto].
  repeat step.
  all: intros H Hup; in_trace H; try congruence.
  all: split; [reflexivity |].
  all: intros x Hex Hrm; try congruence.
  injection Hrm as ->. cbn.
  repeat (first [left; reflexivity | right]).
Qed.

(** C10, where the downloaded input cannot be deleted. *)
Lemma upload_success_returns_200_witness :
  let w := Scenarios.undeletable_input in
  let run := invoke w Scenarios.defaults Scenarios.environment Scenarios.clip_uploaded in
  In (Upload "/tmp/tmpk3x9_q2a" (Some "previews") "output/clip_prev.mp4") (snd run) /\
  upload_file w "/tmp/tmpk3x9_q2a" (Some "previews") "output/clip_prev.mp4" = Ok tt /\
  remove w "/tmp/clip.mp4" = Err (OtherError "PermissionError" "Operation not permitted") /\
  fst run =
    Ok {| statusCode := 200;
          message := "Video preview generated successfully";
          input_key := "input/clip.mp4";
          output_key := "output/clip_prev.mp4";
          bucket := "videos" |}.
Proof.
  cbv zeta.
  assert (Hin : In (Upload "/tmp/tmpk3x9_q2a" (Some "previews") "output/clip_prev.mp4")
                   (effects Scenarios.undeletable_input Scenarios.defaults
                            Scenarios.environment Scenarios.clip_uploaded)).
  { vm_compute. tauto. }
  split; [exact Hin |]. split; [reflexivity |]. split; [reflexivity |].
  exact (proj1 (upload_success_returns_200
                  Scenarios.undeletable_input Scenarios.defaults
                  Scenarios.environment Scenarios.clip_uploaded
                  _ _ _ Hin eq_refl)).
Defined.

End HandlerClaims.

(** * Further properties of the handler *)

Section PathFacts.

Local Open Scope string_scope.
Local Open Scope nat_scope.

Lemma count_char_app (c : ascii) (s t : string) :
  Py.count_char c (s ++ t) = Py.count_char c s + Py.count_char c t.
Proof.
  induction s as [| d s IH]; [reflexivity |].
  simpl. rewrite IH. lia.
Qed.

(** Joining the parts of a split with the separator gives the string back. *)
Lemma split_concat (sep : ascii) (s : string) :
  String.concat (String sep EmptyString) (Py.split sep s) = s.
Proof.
  induction s as [| d s IH]; [reflexivity |].
  cbn [Py.split]. destruct (Py.is_char d sep) eqn:Ed.
  - apply Ascii.eqb_eq in Ed. subst d.
    pose proof (split_length sep s) as Hlen.
    destruct (Py.split sep s) as [| p ps]; [discriminate Hlen |].
    cbn [String.concat String.append] in *. now rewrite IH.
  - destruct (Py.split sep s) as [| p ps] eqn:Es.
    + pose proof (split_length sep s) as Hlen. rewrite Es in Hlen. discriminate Hlen.
    + rewrite <- IH. destruct ps; reflexivity.
Qed.

(** No part of a split contains the separator. *)
Lemma split_parts_clean (sep : ascii) (s : string) :
  Forall (fun part => Py.count_char sep part = 0) (Py.split sep s).
Proof.
  induction s as [| d s IH]; [repeat constructor |].
  cbn [Py.split]. destruct (Py.is_char d sep) eqn:Ed.
  - constructor; [reflexivity | exact IH].
  - destruct (Py.split sep s) as [| p ps]; [| inversion IH; subst].
    + constructor; [cbn; now rewrite Ed | constructor].
    + constructor; [cbn [Py.count_char]; rewrite Ed; assumption | assumption].
Qed.

Lemma split_two (s a b : string) :
  Py.split "." s = [a; b] ->
  s = a ++ "." ++ b /\ Py.count_char "." a = 0 /\ Py.count_char "." b = 0.
Proof.
  intros H. pose proof (split_concat "." s) as Hc.
  pose proof (split_parts_clean "." s) as Hp. rewrite H in Hc, Hp.
  cbn in Hc.
  inversion Hp as [| ? ? Ha Hp']. inversion Hp' as [| ? ? Hb _].
  repeat split; [symmetry; exact Hc | exact Ha | exact Hb].
Qed.

Lemma basename_no_sep (p : string) : Py.count_char "/" (Py.basename p) = 0.
Proof.
  induction p as [| d p IH]; [reflexivity |].
  cbn [Py.basename]. destruct (Nat.eqb (Py.count_char "/" p) 0) eqn:E; [| exact IH].
  apply Nat.eqb_eq in E.
  destruct (Py.is_char d "/") eqn:Ed; [exact E |].
  cbn [Py.count_char]. rewrite Ed, E. reflexivity.
Qed.

Lemma basename_is_suffix (p : string) : exists dir, p = dir ++ Py.basename p.
Proof.
  induction p as [| d p [dir IH]]; [now exists "" |].
  cbn [Py.basename]. destruct (Nat.eqb (Py.count_char "/" p) 0).
  - destruct (Py.is_char d "/").
    + now exists (String d "").
    + now exists "".
  - exists (String d dir).
    change (String d p = String d (dir ++ Py.basename p)).
    f_equal. exact IH.
Qed.

Lemma basename_of_name (s : string) : Py.count_char "/" s = 0 -> Py.basename s = s.
Proof.
  destruct s as [| d s]; [reflexivity |].
  cbn [Py.count_char Py.basename]. intros H.
  destruct (Py.is_char d "/"); [discriminate H |].
  cbn in H. rewrite H. reflexivity.
Qed.

Lemma no_sep_not_absolute (s : string) :
  Py.count_char "/" s = 0 -> Py.starts_with_sep s = false.
Proof.
  destruct s as [| d s]; [reflexivity |]. cbn.
  destruct (Py.is_char d "/"); [discriminate | reflexivity].
Qed.

Lemma append_assoc (a b c : string) : (a ++ b) ++ c = a ++ b ++ c.
Proof.
  induction a as [| d a IH]; [reflexivity |].
  change (String d ((a ++ b) ++ c) = String d (a ++ b ++ c)).
  f_equal. exact IH.
Qed.

(** Joining with a relative path keeps the first component. *)
Lemma path_join_relative (a b : string) :
  Py.starts_with_sep b = false ->
  Py.path_join a b =
    (if (String.length a =? 0) || Py.ends_with_sep a then a else a ++ "/") ++ b.
Proof.
  intros H. unfold Py.path_join. rewrite H.
  destruct ((String.length a =? 0) || Py.ends_with_sep a); [reflexivity |].
  symmetry. apply append_assoc.
Qed.

End PathFacts.

Section HandlerPaths.

Import Pipeline.
Local Open Scope string_scope.
Local Open Scope nat_scope.

#[local] Arguments String.append : simpl never.
#[local] Arguments Py.path_join : simpl never.
#[local] Arguments Py.basename : simpl never.
#[local] Arguments Py.split : simpl never.

(** Case analysis on a hypothesis of membership in an explicit trace. *)
Ltac member H :=
  cbn in H;
  repeat match type of H with
         | _ \/ _ => destruct H as [H | H]
         | False => contradiction H
         | _ = _ => first [discriminate H | inversion H; subst; clear H]
         end.

Ltac open_monad :=
  unfold bind, try_except, try_finally, call, log, emit, lift, ret, raise,
    log_pending_stderr, set_e, is_exception.

Ltac advance :=
  match goal with
  | |- context [match ?r with Ok _ => _ | Err _ => _ end] =>
      lazymatch r with
      | context [match _ with _ => _ end] => fail
      | _ => destruct r eqn:?
      end
  | |- context [is_ffmpeg_error ?e] => is_var e; destruct e
  | |- context [if ?c then _ else _] =>
      lazymatch c with
      | context [match _ with _ => _ end] => fail
      | _ => destruct c eqn:?
      end
  end; cbn.

(** All the runs of the handler, one goal each. *)
Ltac all_runs w event :=
  unfold effects, outcome, invoke, lambda_handler;
  let E := fresh "E" in
  destruct (Nat.eq_dec
              (length (Py.split "." (Py.basename (unquote_plus w (object_key event)))))
              2) as [E | E];
  [ let a := fresh "file_name" in
    let b := fresh "file_ext" in
    let Es := fresh "Esplit" in
    destruct (unpack2_pair _ E) as (a & b & Es); rewrite Es; open_monad; cbn;
    repeat advance
  | unfold bind; rewrite unpack2_mismatch by exact E; cbn ].

(** Two outcomes recorded for the same call are the same. *)
Ltac same_outcome :=
  repeat match goal with
         | H1 : ?x = Err ?a, H2 : ?x = Err ?b |- _ =>
             assert (a = b) by congruence; subst; clear H2
         | H1 : ?x = Ok ?a, H2 : ?x = Ok ?b |- _ =>
             assert (a = b) by congruence; subst; clear H2
         end.

(** X1: a failing download is logged and re-raised unchanged; nothing else
    happens. *)
Theorem download_failure_is_reraised
        (w : World) (cfg : Config) (env : gmap string string) (event : S3Event)
        (b k d : string) (e : exn) :
  In (Download b k d) (effects w cfg env event) ->
  download_file w b k d = Err e ->
  outcome w cfg env event = Err e /\
  effects w cfg env event =
    [TempFile;
     Log INFO (Text ("Downloading file " ++ k ++ " from bucket " ++ b));
     Download b k d;
     Log ERROR (Text "Failed to download input file")].
Proof.
  all_runs w event; intros H Hd; member H; try congruence; same_outcome.
  all: split; reflexivity.
Qed.

(** X1, where the object cannot be read. *)
Lemma download_failure_is_reraised_witness :
  let run := invoke Failures.no_download Scenarios.defaults Scenarios.environment
                    Scenarios.clip_uploaded in
  fst run = Err Failures.access_denied /\
  snd run =
    [TempFile;
     Log INFO (Text "Downloading file input/clip.mp4 from bucket videos");
     Download "videos" "input/clip.mp4" "/tmp/clip.mp4";
     Log ERROR (Text "Failed to download input file")].
Proof.
  apply (download_failure_is_reraised
           Failures.no_download Scenarios.defaults Scenarios.environment
           Scenarios.clip_uploaded "videos" "input/clip.mp4" "/tmp/clip.mp4").
  - vm_compute. tauto.
  - reflexivity.
Defined.

(** X2: an exception of the planner leaves the handler as it is, without
    any error log; the preview is neither generated nor uploaded. *)
Theorem planner_failure_is_not_logged
        (w : World) (cfg : Config) (env : gmap string string) (event : S3Event)
        (duration : Q) (n sd : Z) (e : exn) :
  let key := unquote_plus w (object_key event) in
  let tmp := Py.path_join "/tmp" (Py.basename key) in
  In (Plan duration n sd) (effects w cfg env event) ->
  calculate_sample_seconds w duration n sd = Err e ->
  outcome w cfg env event = Err e /\
  effects w cfg env event =
    [TempFile;
     Log INFO (Text ("Downloading file " ++ key ++ " from bucket " ++ bucket_name event));
     Download (bucket_name event) key tmp;
     Probe tmp;
     Plan duration n sd] /\
  n = samples cfg /\ sd = sample_duration cfg /\
  probe_step w tmp = Ok duration.
Proof.
  intros key tmp. subst key tmp. unfold probe_step.
  all_runs w event; intros H Hd; member H; try congruence; same_outcome.
  all: repeat split; try reflexivity.
  all: repeat match goal with Hp : _ = _ |- _ => rewrite Hp end; reflexivity.
Qed.

(** X2, on a source of duration zero. *)
Lemma planner_failure_is_not_logged_witness :
  let run := invoke Failures.empty_source Scenarios.defaults Scenarios.environment
                    Scenarios.clip_uploaded in
  fst run = Err (OtherError "InvalidInput" "") /\
  Forall (fun x => is_error_log x = false) (snd run).
Proof.
  cbv zeta.
  destruct (planner_failure_is_not_logged
              Failures.empty_source Scenarios.defaults Scenarios.environment
              Scenarios.clip_uploaded 0.0%Q 4%Z 2%Z (OtherError "InvalidInput" ""))
    as (Hout & Heff & _).
  - vm_compute. tauto.
  - reflexivity.
  - split; [exact Hout |].
    change (snd (invoke Failures.empty_source Scenarios.defaults Scenarios.environment
                        Scenarios.clip_uploaded))
      with (effects Failures.empty_source Scenarios.defaults Scenarios.environment
                    Scenarios.clip_uploaded).
    rewrite Heff. repeat constructor.
Defined.

(** X3: a failing preview generation is logged and re-raised unchanged; the
    upload and the cleanup do not run. *)
Theorem generate_failure_is_reraised
        (w : World) (cfg : Config) (env : gmap string string) (event : S3Event)
        (input output : string) (sd : Z) (starts : list Q) (sc : option string)
        (fm : string) (quiet : bool) (e : exn) :
  In (Generate input output sd starts sc fm quiet) (effects w cfg env event) ->
  generate_video_preview w input output sd starts sc fm quiet = Err e ->
  outcome w cfg env event = Err e /\
  (exists before,
      effects w cfg env event =
        (before ++ [Generate input output sd starts sc fm quiet;
                    Log ERROR (Text "failed to generate video preview")])%list) /\
  (forall f b k, ~ In (Upload f b k) (effects w cfg env event)) /\
  (forall p, ~ In (Remove p) (effects w cfg env event)).
Proof.
  all_runs w event; intros H Hd; member H; try congruence; same_outcome.
  all: split; [reflexivity |].
  all: split; [eexists [_; _; _; _; _]; reflexivity |].
  all: split; intros; intros Hin; member Hin.
Qed.

(** X3, where the engine fails while cutting the samples. *)
Lemma generate_failure_is_reraised_witness :
  let run := invoke Failures.no_encoding Scenarios.defaults Scenarios.environment
                    Scenarios.clip_uploaded in
  fst run = Err (FfmpegError "ffmpeg" "Conversion failed!") /\
  (forall f b k, ~ In (Upload f b k) (snd run)).
Proof.
  cbv zeta.
  destruct (generate_failure_is_reraised
              Failures.no_encoding Scenarios.defaults Scenarios.environment
              Scenarios.clip_uploaded
              "/tmp/clip.mp4" "/tmp/tmpk3x9_q2a" 2%Z
              [0 # 1; 80 # 30; 160 # 30; 240 # 30]%Q None "mp4" true
              (FfmpegError "ffmpeg" "Conversion failed!"))
    as (Hout & _ & Hup & _).
  - vm_compute. tauto.
  - reflexivity.
  - split; [exact Hout | exact Hup].
Defined.

(** X4: a failing upload is logged and re-raised unchanged; the downloaded
    input is not cleaned up. *)
Theorem upload_failure_is_reraised
        (w : World) (cfg : Config) (env : gmap string string) (event : S3Event)
        (file : string) (output_bucket : option string) (out_key : string) (e : exn) :
  In (Upload file output_bucket out_key) (effects w cfg env event) ->
  upload_file w file output_bucket out_key = Err e ->
  outcome w cfg env event = Err e /\
  (exists before,
      effects w cfg env event =
        (before ++ [Upload file output_bucket out_key;
                    Log ERROR (Text "failed to upload video preview")])%list) /\
  (forall p, ~ In (Exists p) (effects w cfg env event)) /\
  (forall p, ~ In (Remove p) (effects w cfg env event)).
Proof.
  all_runs w event; intros H Hd; member H; try congruence; same_outcome.
  all: split; [reflexivity |].
  all: split; [eexists [_; _; _; _; _; _]; reflexivity |].
  all: split; intros; intros Hin; member Hin.
Qed.

(** X4, where the output bucket refuses the preview. *)
Lemma upload_failure_is_reraised_witness :
  let run := invoke Failures.no_upload Scenarios.defaults Scenarios.environment
                    Scenarios.clip_uploaded in
  fst run = Err Failures.access_denied /\
  (forall p, ~ In (Remove p) (snd run)).
Proof.
  cbv zeta.
  destruct (upload_failure_is_reraised
              Failures.no_upload Scenarios.defaults Scenarios.environment
              Scenarios.clip_uploaded
              "/tmp/tmpk3x9_q2a" (Some "previews") "output/clip_prev.mp4"
              Failures.access_denied)
    as (Hout & _ & _ & Hrm).
  - vm_compute. tauto.
  - reflexivity.
  - split; [exact Hout | exact Hrm].
Defined.

(** X5: the temporary input file is looked for and removed only at the end
    of a successful invocation; whenever the handler raises, no cleanup has
    been attempted. *)
Theorem cleanup_only_on_success
        (w : World) (cfg : Config) (env : gmap string string) (event : S3Event) :
  let tmp := Py.path_join "/tmp" (Py.basename (unquote_plus w (object_key event))) in
  (forall e, outcome w cfg env event = Err e ->
             forall p, ~ In (Exists p) (effects w cfg env event) /\
                       ~ In (Remove p) (effects w cfg env event)) /\
  (forall r, outcome w cfg env event = Ok r ->
             In (Exists tmp) (effects w cfg env event) /\
             (In (Remove tmp) (effects w cfg env event) <-> path_exists w tmp = true)).
Proof.
  intros tmp. subst tmp.
  all_runs w event.
  all: split; [intros x Hx p; try discriminate Hx; split; intros Hin; member Hin
              | intros x Hx; try discriminate Hx].
  all: split; [cbn; tauto |].
  all: split; [intros Hin; try reflexivity; member Hin | intros Hp; try discriminate Hp].
  all: cbn; tauto.
Qed.

(** X6: a response is returned only after a successful upload, and it
    describes that upload: status 200, the decoded input key, the key the
    preview was uploaded under, and the bucket of the event (the bucket the
    preview went to is the one of the environment). No error was logged. *)
Theorem returned_response_means_uploaded
        (w : World) (cfg : Config) (env : gmap string string) (event : S3Event)
        (r : Response) :
  outcome w cfg env event = Ok r ->
  statusCode r = 200%Z /\
  input_key r = unquote_plus w (object_key event) /\
  bucket r = bucket_name event /\
  (exists file,
      In (Upload file (Py.getenv env "output_bucket") (output_key r))
         (effects w cfg env event) /\
      upload_file w file (Py.getenv env "output_bucket") (output_key r) = Ok tt) /\
  Forall (fun x => is_error_log x = false) (effects w cfg env event).
Proof.
  all_runs w event; intros Hr; try discriminate Hr.
  all: inversion Hr; subst; clear Hr; cbn.
  all: repeat split.
  all: try (eexists; split; [cbn; tauto |];
            match goal with H : upload_file _ _ _ _ = Ok ?u |- _ =>
              destruct u; exact H end).
  all: repeat constructor.
Qed.

(** X6, on the ten-second clip. *)
Lemma returned_response_means_uploaded_witness :
  exists r,
    outcome Scenarios.all_fine Scenarios.defaults Scenarios.environment
            Scenarios.clip_uploaded = Ok r /\
    statusCode r = 200%Z /\ bucket r = "videos" /\
    In (Upload "/tmp/tmpk3x9_q2a" (Some "previews") "output/clip_prev.mp4")
       (effects Scenarios.all_fine Scenarios.defaults Scenarios.environment
                Scenarios.clip_uploaded).
Proof.
  eexists. split; [reflexivity |].
  destruct (returned_response_means_uploaded
              Scenarios.all_fine Scenarios.defaults Scenarios.environment
              Scenarios.clip_uploaded _ eq_refl) as (H200 & _ & Hb & _ & _).
  split; [exact H200 |]. split; [exact Hb |].
  vm_compute. tauto.
Defined.

(** X7: what is uploaded is the temporary output file, after the engine has
    written the preview into it from the downloaded input, with the starts
    the planner returned for the probed duration and the configured sample
    count and duration. *)
Theorem uploaded_preview_provenance
        (w : World) (cfg : Config) (env : gmap string string) (event : S3Event)
        (file : string) (output_bucket : option string) (out_key : string) :
  let key := unquote_plus w (object_key event) in
  let tmp := Py.path_join "/tmp" (Py.basename key) in
  In (Upload file output_bucket out_key) (effects w cfg env event) ->
  NamedTemporaryFile w = Ok file /\
  download_file w (bucket_name event) key tmp = Ok tt /\
  exists duration starts,
    probe_step w tmp = Ok duration /\
    calculate_sample_seconds w duration (samples cfg) (sample_duration cfg) = Ok starts /\
    generate_video_preview w tmp file (sample_duration cfg) starts (scale cfg)
                           (format cfg) (negb (debug cfg)) = Ok tt /\
    exists after,
      effects w cfg env event =
        ([TempFile;
          Log INFO (Text ("Downloading file " ++ key ++ " from bucket " ++ bucket_name event));
          Download (bucket_name event) key tmp;
          Probe tmp;
          Plan duration (samples cfg) (sample_duration cfg);
          Generate tmp file (sample_duration cfg) starts (scale cfg) (format cfg)
                   (negb (debug cfg));
          Upload file output_bucket out_key] ++ after)%list.
Proof.
  intros key tmp. subst key tmp. unfold probe_step.
  all_runs w event; intros H; member H.
  all: repeat match goal with u : unit |- _ => destruct u end.
  all: split; [reflexivity || assumption |].
  all: split; [reflexivity || assumption |].
  all: do 2 eexists.
  all: split; [reflexivity |].
  all: split; [eassumption |].
  all: split; [eassumption |].
  all: eexists; reflexivity.
Qed.

(** X7, on the ten-second clip. *)
Lemma uploaded_preview_provenance_witness :
  NamedTemporaryFile Scenarios.all_fine = Ok "/tmp/tmpk3x9_q2a" /\
  download_file Scenarios.all_fine "videos" "input/clip.mp4" "/tmp/clip.mp4" = Ok tt.
Proof.
  destruct (uploaded_preview_provenance
              Scenarios.all_fine Scenarios.defaults Scenarios.environment
              Scenarios.clip_uploaded
              "/tmp/tmpk3x9_q2a" (Some "previews") "output/clip_prev.mp4")
    as (Htmp & Hdl & _).
  - vm_compute. tauto.
  - split; [exact Htmp | exact Hdl].
Defined.

(** X8: in every invocation the collaborators are called in the order of
    the program text, each at most once, up to the point where the
    invocation ends: the handler never repeats or reorders a step. *)
Theorem stages_in_program_order
        (w : World) (cfg : Config) (env : gmap string string) (event : S3Event) :
  exists rest,
    program_order = (omap stage_of (effects w cfg env event) ++ rest)%list.
Proof.
  all_runs w event; cbn; eexists; reflexivity.
Qed.

(** Where the download writes and what the upload is called with. *)
Lemma download_effect_inv
      (w : World) (cfg : Config) (env : gmap string string) (event : S3Event)
      (b k d : string) :
  In (Download b k d) (effects w cfg env event) ->
  b = bucket_name event /\ k = unquote_plus w (object_key event) /\
  d = Py.path_join "/tmp" (Py.basename k) /\
  exists name ext, Py.split "." (Py.basename k) = [name; ext].
Proof.
  all_runs w event; intros H; member H.
  all: repeat split; eauto.
Qed.

Lemma upload_effect_inv
      (w : World) (cfg : Config) (env : gmap string string) (event : S3Event)
      (file : string) (output_bucket : option string) (out_key : string) :
  In (Upload file output_bucket out_key) (effects w cfg env event) ->
  output_bucket = Py.getenv env "output_bucket" /\
  exists name ext,
    Py.split "." (Py.basename (unquote_plus w (object_key event))) = [name; ext] /\
    out_key = Py.path_join (s3_output_prefix cfg) (name ++ "_prev." ++ format cfg).
Proof.
  all_runs w event; intros H; member H.
  all: split; [reflexivity | eauto].
Qed.

Lemma generate_effect_inv
      (w : World) (cfg : Config) (env : gmap string string) (event : S3Event)
      (input output : string) (sd : Z) (starts : list Q) (sc : option string)
      (fm : string) (quiet : bool) :
  In (Generate input output sd starts sc fm quiet) (effects w cfg env event) ->
  sd = sample_duration cfg /\ sc = scale cfg /\ fm = format cfg /\
  quiet = negb (debug cfg).
Proof.
  all_runs w event; intros H; member H.
  all: repeat split.
Qed.

(** The parts line 25 unpacks: the name holds neither a dot nor a slash. *)
Lemma name_of_basename (key name ext : string) :
  Py.split "." (Py.basename key) = [name; ext] ->
  Py.basename key = name ++ "." ++ ext /\
  Py.count_char "." name = 0 /\ Py.count_char "." ext = 0 /\
  Py.count_char "/" name = 0 /\ Py.count_char "/" ext = 0.
Proof.
  intros H. destruct (split_two _ _ _ H) as (Hb & Hn & He).
  pose proof (basename_no_sep key) as Hs.
  rewrite Hb, !count_char_app in Hs.
  repeat split; try assumption; lia.
Qed.

Lemma preview_name_relative (name tail : string) :
  Py.count_char "/" name = 0 ->
  Py.starts_with_sep (name ++ "_prev." ++ tail) = false.
Proof.
  destruct name as [| d name]; [reflexivity |].
  intros H. apply no_sep_not_absolute in H. exact H.
Qed.

(** X9: the preview is uploaded under the configured prefix, as the name of
    the input (directories and extension dropped) followed by ["_prev."] and
    the configured format: the extension of the input plays no part. *)
Theorem output_key_shape
        (w : World) (cfg : Config) (env : gmap string string) (event : S3Event)
        (file : string) (output_bucket : option string) (out_key : string) :
  let prefix := s3_output_prefix cfg in
  In (Upload file output_bucket out_key) (effects w cfg env event) ->
  exists name ext,
    Py.basename (unquote_plus w (object_key event)) = name ++ "." ++ ext /\
    Py.count_char "." name = 0 /\ Py.count_char "/" name = 0 /\
    out_key =
      (if (String.length prefix =? 0) || Py.ends_with_sep prefix
       then prefix else prefix ++ "/")
      ++ name ++ "_prev." ++ format cfg.
Proof.
  intros prefix Hin.
  destruct (upload_effect_inv _ _ _ _ _ _ _ Hin) as (_ & name & ext & Hs & Hk).
  destruct (name_of_basename _ _ _ Hs) as (Hb & Hn & _ & Hsep & _).
  exists name, ext. repeat split; try assumption.
  rewrite Hk. apply path_join_relative. now apply preview_name_relative.
Qed.

(** X9, on the ten-second clip. *)
Lemma output_key_shape_witness :
  exists name ext,
    Py.basename "input/clip.mp4" = name ++ "." ++ ext /\
    "output/clip_prev.mp4" = "output/" ++ name ++ "_prev." ++ "mp4".
Proof.
  destruct (output_key_shape
              Scenarios.all_fine Scenarios.defaults Scenarios.environment
              Scenarios.clip_uploaded
              "/tmp/tmpk3x9_q2a" (Some "previews") "output/clip_prev.mp4")
    as (name & ext & Hb & _ & _ & Hk).
  - vm_compute. tauto.
  - exists name, ext. split; [exact Hb | exact Hk].
Defined.

(** X10: the input is always downloaded, from the bucket and the decoded
    key of the event, to ["/tmp/"] followed by the base name of that key;
    the base name contains no ['/'] and ends the key. *)
Theorem download_destination_under_tmp
        (w : World) (cfg : Config) (env : gmap string string) (event : S3Event)
        (b k d : string) :
  In (Download b k d) (effects w cfg env event) ->
  b = bucket_name event /\ k = unquote_plus w (object_key event) /\
  d = "/tmp/" ++ Py.basename k /\
  Py.count_char "/" (Py.basename k) = 0 /\
  exists dir, k = dir ++ Py.basename k.
Proof.
  intros Hin.
  destruct (download_effect_inv _ _ _ _ _ _ _ Hin) as (Hb & Hk & Hd & _).
  repeat split; try assumption.
  - rewrite Hd. rewrite path_join_relative; [reflexivity |].
    apply no_sep_not_absolute, basename_no_sep.
  - apply basename_no_sep.
  - apply basename_is_suffix.
Qed.

(** X10, on a key three directories deep. *)
Lemma download_destination_under_tmp_witness :
  "/tmp/clip.mp4" = "/tmp/" ++ Py.basename "archive/2024/clip.mp4".
Proof.
  destruct (download_destination_under_tmp
              Scenarios.all_fine Scenarios.defaults Scenarios.environment
              Failures.nested_clip_uploaded
              "videos" "archive/2024/clip.mp4" "/tmp/clip.mp4")
    as (_ & _ & Hd & _).
  - vm_compute. tauto.
  - exact Hd.
Defined.

(** X11: two objects whose keys end in the same file name are downloaded to
    the same temporary file and, under one configuration, their previews are
    uploaded under the same key: the directory of the key is ignored. *)
Theorem same_name_same_targets
        (w1 w2 : World) (cfg : Config) (env1 env2 : gmap string string)
        (event1 event2 : S3Event) :
  Py.basename (unquote_plus w1 (object_key event1))
  = Py.basename (unquote_plus w2 (object_key event2)) ->
  (forall b1 k1 d1 b2 k2 d2,
      In (Download b1 k1 d1) (effects w1 cfg env1 event1) ->
      In (Download b2 k2 d2) (effects w2 cfg env2 event2) ->
      d1 = d2) /\
  (forall f1 o1 key1 f2 o2 key2,
      In (Upload f1 o1 key1) (effects w1 cfg env1 event1) ->
      In (Upload f2 o2 key2) (effects w2 cfg env2 event2) ->
      key1 = key2).
Proof.
  intros Hsame. split.
  - intros b1 k1 d1 b2 k2 d2 H1 H2.
    destruct (download_effect_inv _ _ _ _ _ _ _ H1) as (_ & -> & -> & _).
    destruct (download_effect_inv _ _ _ _ _ _ _ H2) as (_ & -> & -> & _).
    now rewrite Hsame.
  - intros f1 o1 key1 f2 o2 key2 H1 H2.
    destruct (upload_effect_inv _ _ _ _ _ _ _ H1) as (_ & n1 & e1 & Hs1 & ->).
    destruct (upload_effect_inv _ _ _ _ _ _ _ H2) as (_ & n2 & e2 & Hs2 & ->).
    rewrite Hsame in Hs1. rewrite Hs1 in Hs2. now inversion Hs2.
Qed.

(** X11, on [input/clip.mp4] and [archive/2024/clip.mp4]. *)
Lemma same_name_same_targets_witness :
  Py.basename "input/clip.mp4" = Py.basename "archive/2024/clip.mp4" /\
  In (Download "videos" "input/clip.mp4" "/tmp/clip.mp4")
     (effects Scenarios.all_fine Scenarios.defaults Scenarios.environment
              Scenarios.clip_uploaded) /\
  In (Download "videos" "archive/2024/clip.mp4" "/tmp/clip.mp4")
     (effects Scenarios.all_fine Scenarios.defaults Scenarios.environment
              Failures.nested_clip_uploaded) /\
  "/tmp/clip.mp4" = "/tmp/clip.mp4".
Proof.
  assert (Hsame : Py.basename "input/clip.mp4" = Py.basename "archive/2024/clip.mp4")
    by reflexivity.
  assert (H1 : In (Download "videos" "input/clip.mp4" "/tmp/clip.mp4")
                  (effects Scenarios.all_fine Scenarios.defaults Scenarios.environment
                           Scenarios.clip_uploaded)) by (vm_compute; tauto).
  assert (H2 : In (Download "videos" "archive/2024/clip.mp4" "/tmp/clip.mp4")
                  (effects Scenarios.all_fine Scenarios.defaults Scenarios.environment
                           Failures.nested_clip_uploaded)) by (vm_compute; tauto).
  split; [exact Hsame |]. split; [exact H1 |]. split; [exact H2 |].
  exact (proj1 (same_name_same_targets
                  Scenarios.all_fine Scenarios.all_fine Scenarios.defaults
                  Scenarios.environment Scenarios.environment
                  Scenarios.clip_uploaded Failures.nested_clip_uploaded Hsame)
               _ _ _ _ _ _ H1 H2).
Defined.

(** X12: with the configuration loaded from the environment, the engine is
    run quietly unless [debug] is set to ["true"] in some letter case; the
    scale and the format it is given are those of the environment, the
    format being ["mp4"] when unset. *)
Theorem quiet_unless_debug
        (w : World) (cfg : Config) (env : gmap string string) (event : S3Event)
        (input output : string) (sd : Z) (starts : list Q) (sc : option string)
        (fm : string) (quiet : bool) :
  load_config env = Ok cfg ->
  In (Generate input output sd starts sc fm quiet) (effects w cfg env event) ->
  (quiet = false <-> exists v, env !! "debug" = Some v /\ Py.lower v = "true") /\
  sc = env !! "scale" /\
  fm = default "mp4" (env !! "format").
Proof.
  intros Hcfg Hin.
  destruct (generate_effect_inv _ _ _ _ _ _ _ _ _ _ _ Hin) as (_ & -> & -> & ->).
  unfold load_config, Py.getenv_default, Py.getenv in Hcfg.
  destruct (int_or_raise (default "4" (env !! "samples"))); [| discriminate].
  destruct (int_or_raise (default "2" (env !! "sample_duration"))); [| discriminate].
  inversion Hcfg; subst; clear Hcfg. cbn [debug scale format].
  repeat split.
  - intros Hq. apply negb_false_iff, String.eqb_eq in Hq.
    destruct (env !! "debug") as [v |]; [eauto | discriminate Hq].
  - intros (v & Hv & Hl). rewrite Hv. cbn [default].
    apply negb_false_iff, String.eqb_eq. exact Hl.
Qed.

(** X12, with nothing but the output bucket configured. *)
Lemma quiet_unless_debug_witness :
  load_config Scenarios.environment = Ok Scenarios.defaults /\
  In (Generate "/tmp/clip.mp4" "/tmp/tmpk3x9_q2a" 2
               [0 # 1; 80 # 30; 160 # 30; 240 # 30]%Q None "mp4" true)
     (effects Scenarios.all_fine Scenarios.defaults Scenarios.environment
              Scenarios.clip_uploaded) /\
  (true = false <->
   exists v, Scenarios.environment !! "debug" = Some v /\ Py.lower v = "true").
Proof.
  assert (Hin : In (Generate "/tmp/clip.mp4" "/tmp/tmpk3x9_q2a" 2
                             [0 # 1; 80 # 30; 160 # 30; 240 # 30]%Q None "mp4" true)
                   (effects Scenarios.all_fine Scenarios.defaults Scenarios.environment
                            Scenarios.clip_uploaded)) by (vm_compute; tauto).
  split; [reflexivity |]. split; [exact Hin |].
  exact (proj1 (quiet_unless_debug
                  Scenarios.all_fine Scenarios.defaults Scenarios.environment
                  Scenarios.clip_uploaded _ _ _ _ _ _ _ eq_refl Hin)).
Defined.

(** X13: the [finally] clause of the probe block never logs.  By the time
    it runs, the name [e] is unbound: no [except] clause has been entered,
    or the clause has been left and has deleted it. *)
Theorem finally_clause_never_logs
        {A : Type} (body : M A) (catches : exn -> bool) (handler : exn -> M A)
        (s : state) :
  (forall s0, local_e (snd (body s0)) = local_e s0) ->
  local_e s = None ->
  try_finally (try_except body catches handler) log_pending_stderr s
  = try_except body catches handler s.
Proof.
  intros Hbody He. unfold try_finally, try_except, log_pending_stderr.
  pose proof (Hbody s) as Hs. destruct (body s) as [[a | e] s']; cbn in Hs.
  - rewrite Hs, He. reflexivity.
  - destruct (catches e).
    + destruct (handler e (set_e (Some e) s')) as [r s'']. reflexivity.
    + rewrite Hs, He. reflexivity.
Qed.

(** X13, for the probe of a file the engine rejects. *)
Lemma finally_clause_never_logs_witness :
  let body := call (Probe "/tmp/clip.mp4") (probe Scenarios.not_a_video "/tmp/clip.mp4") in
  let handler := fun e : exn => bind (log ERROR (Text "failed to get video info"))
                                     (fun _ => @raise (gmap string (gmap string string)) e) in
  try_finally (try_except body is_ffmpeg_error handler) log_pending_stderr initial
  = try_except body is_ffmpeg_error handler initial.
Proof.
  cbv zeta. apply finally_clause_never_logs; reflexivity.
Defined.

(** X18: when the key has a name and an extension and every collaborator
    up to the upload succeeds, the handler returns the 200 response,
    whether or not the temporary input exists or can be removed. *)
Theorem all_steps_succeed_returns_200
        (w : World) (cfg : Config) (env : gmap string string) (event : S3Event)
        (name ext file : string) (duration : Q) (starts : list Q) :
  let key := unquote_plus w (object_key event) in
  let tmp := Py.path_join "/tmp" (Py.basename key) in
  let out_key := Py.path_join (s3_output_prefix cfg) (name ++ "_prev." ++ format cfg) in
  Py.split "." (Py.basename key) = [name; ext] ->
  NamedTemporaryFile w = Ok file ->
  download_file w (bucket_name event) key tmp = Ok tt ->
  probe_step w tmp = Ok duration ->
  calculate_sample_seconds w duration (samples cfg) (sample_duration cfg) = Ok starts ->
  generate_video_preview w tmp file (sample_duration cfg) starts (scale cfg)
                         (format cfg) (negb (debug cfg)) = Ok tt ->
  upload_file w file (Py.getenv env "output_bucket") out_key = Ok tt ->
  outcome w cfg env event = Ok (success key out_key (bucket_name event)).
Proof.
  intros key tmp out_key. subst key tmp out_key. unfold probe_step.
  intros Hs Htmp Hdl Hprobe Hplan Hgen Hup.
  unfold outcome, invoke, lambda_handler. rewrite Hs. open_monad. cbn.
  rewrite Htmp. cbn. rewrite Hdl. cbn.
  destruct (probe w _) as [info |]; [| discriminate Hprobe].
  cbn. rewrite Hprobe. cbn. rewrite Hplan. cbn. rewrite Hgen. cbn. rewrite Hup. cbn.
  destruct (path_exists w _); cbn; [| reflexivity].
  destruct (remove w _); reflexivity.
Qed.

(** X18, where the downloaded input cannot be deleted. *)
Lemma all_steps_succeed_returns_200_witness :
  outcome Scenarios.undeletable_input Scenarios.defaults Scenarios.environment
          Scenarios.clip_uploaded
  = Ok (success "input/clip.mp4" "output/clip_prev.mp4" "videos").
Proof.
  apply (all_steps_succeed_returns_200
           Scenarios.undeletable_input Scenarios.defaults Scenarios.environment
           Scenarios.clip_uploaded "clip" "mp4" "/tmp/tmpk3x9_q2a" 10.0%Q
           [0 # 1; 80 # 30; 160 # 30; 240 # 30]%Q); reflexivity.
Defined.

End HandlerPaths.

(** * Properties of the performance harness *)

Section HarnessFacts.

Import Harness.
Local Open Scope string_scope.
Local Open Scope nat_scope.

Lemma split_single (c : ascii) (s b : string) :
  Py.split c s = [b] -> b = s /\ rsplit c s = None.
Proof.
  revert b. induction s as [| d s IH]; intros b H.
  - cbn in H. inversion H. auto.
  - cbn [Py.split] in H. cbn [rsplit].
    destruct (Py.is_char d c).
    + pose proof (split_length c s) as Hl.
      destruct (Py.split c s); [discriminate Hl | discriminate H].
    + destruct (Py.split c s) as [| p ps] eqn:Es.
      * pose proof (split_length c s) as Hl. rewrite Es in Hl. discriminate Hl.
      * inversion H; subst. destruct (IH p eq_refl) as [-> ->]. auto.
Qed.

(** With exactly one separator, splitting at the last one and splitting at
    every one agree. *)
Lemma rsplit_of_split (c : ascii) (s a b : string) :
  Py.split c s = [a; b] -> rsplit c s = Some (a, b).
Proof.
  revert a. induction s as [| d s IH]; intros a H; [discriminate H |].
  cbn [Py.split] in H. cbn [rsplit].
  destruct (Py.is_char d c) eqn:Ed.
  - inversion H as [[Ha Hs]]. destruct (split_single _ _ _ Hs) as [-> ->].
    reflexivity.
  - destruct (Py.split c s) as [| p ps] eqn:Es; [discriminate H |].
    inversion H; subst. rewrite (IH p eq_refl). reflexivity.
Qed.

Lemma has_non_dot_name (a : string) :
  a <> "" -> Py.count_char "." a = 0 -> has_non_dot a = true.
Proof.
  destruct a as [| d a]; [congruence |]. intros _ H. cbn in *.
  destruct (Py.is_char d "."); [discriminate H | reflexivity].
Qed.

(** [splitext] on a file name with one dot that is not in front. *)
Lemma splitext_one_dot (s a b : string) :
  Py.split "." s = [a; b] -> Py.count_char "/" s = 0 -> a <> "" ->
  splitext s = (a, String "." b).
Proof.
  intros Hs Hsep Ha. unfold splitext. rewrite (rsplit_of_split _ _ _ _ Hs).
  destruct (split_two _ _ _ Hs) as (E & Hda & _).
  rewrite E, !count_char_app in Hsep.
  assert (Hb : Py.count_char "/" b = 0) by lia.
  assert (Hsa : Py.count_char "/" a = 0) by lia.
  rewrite Hb, (basename_of_name a Hsa), (has_non_dot_name a Ha Hda).
  reflexivity.
Qed.

Lemma endswith_iff (suffix s : string) :
  endswith suffix s = true <-> exists stem, s = stem ++ suffix.
Proof.
  induction s as [| d s IH]; cbn [endswith].
  - rewrite orb_false_r, String.eqb_eq. split.
    + intros <-. now exists "".
    + intros ([| ? ?] & H); [exact H | discriminate H].
  - rewrite orb_true_iff, String.eqb_eq, IH. split.
    + intros [<- | (stem & ->)]; [now exists "" | now exists (String d stem)].
    + intros ([| d' stem] & H); [left; exact H |].
      right. exists stem. cbn in H. now inversion H.
Qed.

End HarnessFacts.

Section HarnessProperties.

Import Harness.
Local Open Scope string_scope.
Local Open Scope nat_scope.

(** X14: when the handler is configured with the prefix ["previews"] and the
    format ["mp4"], the key it uploads the preview under is the key the
    harness polls for, for every video whose name has one dot, not in
    front. *)
Theorem harness_polls_uploaded_key
        (w : World) (cfg : Config) (env : gmap string string) (event : S3Event)
        (video_path file : string) (output_bucket : option string) (out_key : string) :
  In (Upload file output_bucket out_key) (effects w cfg env event) ->
  Py.basename (unquote_plus w (object_key event)) = video_name video_path ->
  (forall rest, video_name video_path <> String "." rest) ->
  s3_output_prefix cfg = "previews" ->
  format cfg = "mp4" ->
  out_key = expected_output_key video_path.
Proof.
  intros Hin Hname Hdot Hprefix Hformat.
  destruct (upload_effect_inv _ _ _ _ _ _ _ Hin) as (_ & name & ext & Hs & ->).
  destruct (name_of_basename _ _ _ Hs) as (Hb & _ & _ & Hsep & _).
  assert (Hne : name <> "").
  { intros ->. apply (Hdot ext). rewrite <- Hname. exact Hb. }
  unfold expected_output_key. rewrite <- Hname.
  rewrite (splitext_one_dot _ _ _ Hs (basename_no_sep _) Hne).
  rewrite Hprefix, Hformat.
  rewrite path_join_relative by now apply preview_name_relative.
  reflexivity.
Qed.

(** X14, on the ten-second clip. *)
Lemma harness_polls_uploaded_key_witness :
  "previews/clip_prev.mp4" = expected_output_key "./test_videos/clip.mp4".
Proof.
  apply (harness_polls_uploaded_key
           Scenarios.all_fine Failures.previews_config Scenarios.environment
           {| bucket_name := "videos"; object_key := "clip.mp4" |}
           "./test_videos/clip.mp4" "/tmp/tmpk3x9_q2a" (Some "previews")).
  - vm_compute. tauto.
  - reflexivity.
  - intros rest H. vm_compute in H. discriminate H.
  - reflexivity.
  - reflexivity.
Defined.

(** X15: with the output prefix left at its default, ["output"], no preview
    is ever uploaded under a key the harness polls for. *)
Theorem harness_misses_default_prefix
        (w : World) (cfg : Config) (env : gmap string string) (event : S3Event)
        (file : string) (output_bucket : option string) (out_key : string) :
  load_config env = Ok cfg ->
  env !! "s3_output_prefix" = None ->
  In (Upload file output_bucket out_key) (effects w cfg env event) ->
  forall video_path, out_key <> expected_output_key video_path.
Proof.
  intros Hcfg Hnone Hin video_path.
  assert (Hprefix : s3_output_prefix cfg = "output").
  { unfold load_config, Py.getenv_default in Hcfg.
    destruct (int_or_raise (default "4" (env !! "samples"))); [| discriminate].
    destruct (int_or_raise (default "2" (env !! "sample_duration"))); [| discriminate].
    inversion Hcfg; subst; clear Hcfg. cbn. now rewrite Hnone. }
  destruct (upload_effect_inv _ _ _ _ _ _ _ Hin) as (_ & name & ext & Hs & ->).
  destruct (name_of_basename _ _ _ Hs) as (_ & _ & _ & Hsep & _).
  rewrite path_join_relative by now apply preview_name_relative.
  rewrite Hprefix. unfold expected_output_key. cbn. discriminate.
Qed.

(** X15, with nothing but the output bucket configured. *)
Lemma harness_misses_default_prefix_witness :
  "output/clip_prev.mp4" <> expected_output_key "./test_videos/clip.mp4".
Proof.
  apply (harness_misses_default_prefix
           Scenarios.all_fine Scenarios.defaults Scenarios.environment
           {| bucket_name := "videos"; object_key := "clip.mp4" |}
           "/tmp/tmpk3x9_q2a" (Some "previews")).
  - reflexivity.
  - reflexivity.
  - vm_compute. tauto.
Defined.

(** ** Selecting the test videos *)

Lemma insert_by_key_perm (a : Z * string) (l : list (Z * string)) :
  Permutation (insert_by_key a l) (a :: l).
Proof.
  induction l as [| b l IH]; [reflexivity |]. cbn.
  destruct (fst b <? fst a)%Z; [| reflexivity].
  rewrite IH. apply perm_swap.
Qed.

Lemma sort_by_key_perm (l : list (Z * string)) : Permutation (sort_by_key l) l.
Proof.
  induction l as [| a l IH]; [reflexivity |].
  cbn. rewrite insert_by_key_perm. now constructor.
Qed.

Lemma insert_by_key_sorted (a : Z * string) (l : list (Z * string)) :
  StronglySorted by_key l -> StronglySorted by_key (insert_by_key a l).
Proof.
  induction 1 as [| b l Hl IH Hb]; [repeat constructor |]. cbn.
  destruct (fst b <? fst a)%Z eqn:E.
  - constructor; [exact IH |].
    apply Z.ltb_lt in E.
    rewrite (insert_by_key_perm a l). constructor; [unfold by_key; lia | exact Hb].
  - apply Z.ltb_ge in E. constructor; [now constructor |].
    constructor; [exact E |].
    eapply List.Forall_impl; [| exact Hb]. unfold by_key. intros c Hc. lia.
Qed.

Lemma sort_by_key_sorted (l : list (Z * string)) : StronglySorted by_key (sort_by_key l).
Proof.
  induction l as [| a l IH]; [constructor |]. now apply insert_by_key_sorted.
Qed.

Lemma keys_of_ok (key : string -> result exn Z) (l : list string)
      (ks : list (Z * string)) :
  keys_of key l = Ok ks ->
  map snd ks = l /\ Forall (fun kx => key (snd kx) = Ok (fst kx)) ks.
Proof.
  revert ks. induction l as [| x l IH]; intros ks H; cbn in H.
  - inversion H. split; constructor.
  - destruct (key x) as [k |] eqn:Ek; [| discriminate H].
    destruct (keys_of key l) as [ks' |]; [| discriminate H].
    inversion H; subst. destruct (IH ks' eq_refl) as [Hm Hf].
    split; [cbn; now rewrite Hm | constructor; assumption].
Qed.

Lemma keys_of_err (key : string -> result exn Z) (l : list string) (e : exn) :
  keys_of key l = Err e -> exists x, In x l /\ key x = Err e.
Proof.
  induction l as [| x l IH]; intros H; cbn in H; [discriminate H |].
  destruct (key x) as [k |] eqn:Ek.
  - destruct (keys_of key l) as [ks' |]; [discriminate H |].
    destruct (IH H) as (y & Hy & Hk). exists y. split; [now right | exact Hk].
  - inversion H; subst. exists x. split; [now left | exact Ek].
Qed.

Lemma sorted_pairs_sorted_values (key : string -> result exn Z) (ps : list (Z * string)) :
  Forall (fun kx => key (snd kx) = Ok (fst kx)) ps ->
  StronglySorted by_key ps ->
  StronglySorted
    (fun a b => exists sa sb, key a = Ok sa /\ key b = Ok sb /\ (sa <= sb)%Z)
    (map snd ps).
Proof.
  intros Hf Hs. induction Hs as [| p ps Hs IH Hp]; [constructor |].
  inversion Hf as [| ? ? Hk Hf']; subst. cbn. constructor; [now apply IH |].
  rewrite List.Forall_map.
  rewrite List.Forall_forall in *. intros q Hq.
  exists (fst p), (fst q). repeat split; [exact Hk | now apply Hf' | now apply Hp].
Qed.

(** X16: the videos handed to the tester are the files of the folder whose
    name ends in [.mp4] or [.MP4], each joined to the folder, in
    non-decreasing order of size; there is at least one. *)
Theorem selected_videos_sorted_by_size
        (video_folder : string) (listing : list string)
        (getsize : string -> result exn Z) (test_videos : list string) :
  select_test_videos video_folder listing getsize = Testing test_videos ->
  test_videos <> [] /\
  Permutation test_videos (find_test_videos video_folder listing) /\
  StronglySorted
    (fun a b => exists sa sb, getsize a = Ok sa /\ getsize b = Ok sb /\ (sa <= sb)%Z)
    test_videos /\
  Forall (fun v => exists f stem,
              In f listing /\ v = Py.path_join video_folder f /\
              (f = stem ++ ".mp4" \/ f = stem ++ ".MP4"))
         test_videos.
Proof.
  unfold select_test_videos, sort_by_size. intros H.
  destruct (find_test_videos video_folder listing) as [| v vs] eqn:Ef;
    [discriminate H |].
  destruct (keys_of getsize (v :: vs)) as [ks |] eqn:Ek; [| discriminate H].
  inversion H; subst; clear H.
  destruct (keys_of_ok _ _ _ Ek) as [Hm Hf].
  assert (Hperm : Permutation (map snd (sort_by_key ks)) (v :: vs)).
  { rewrite <- Hm. apply Permutation_map, sort_by_key_perm. }
  split; [| split; [exact Hperm | split]].
  - intros Hnil. rewrite Hnil in Hperm. apply Permutation_nil in Hperm. discriminate.
  - apply sorted_pairs_sorted_values; [| apply sort_by_key_sorted].
    eapply Permutation_Forall; [| exact Hf]. symmetry. apply sort_by_key_perm.
  - eapply Permutation_Forall; [symmetry; exact Hperm |].
    rewrite <- Ef. unfold find_test_videos.
    rewrite List.Forall_map, List.Forall_forall. intros f Hfin.
    apply filter_In in Hfin. destruct Hfin as [Hl Ht].
    unfold is_test_video in Ht. apply orb_true_iff in Ht.
    rewrite !endswith_iff in Ht.
    destruct Ht as [[stem Hstem] | [stem Hstem]]; exists f, stem; auto.
Qed.

(** X16, on a folder with three videos and a text file. *)
Lemma selected_videos_sorted_by_size_witness :
  Permutation ["v/a.MP4"; "v/bb.mp4"; "v/long.mp4"]
              (find_test_videos "v" ["long.mp4"; "notes.txt"; "a.MP4"; "bb.mp4"]).
Proof.
  apply (selected_videos_sorted_by_size
           "v" ["long.mp4"; "notes.txt"; "a.MP4"; "bb.mp4"]
           (fun f : string => @Ok exn Z (Z.of_nat (String.length f)))).
  reflexivity.
Defined.

(** Once the folder is listed, the harness exits with status 1 exactly
    when no file of the listing ends in [.mp4] or [.MP4], and it fails only
    when the size of one of the selected videos cannot be read. *)
Lemma select_without_videos
      (video_folder : string) (listing : list string)
      (getsize : string -> result exn Z) :
  (forall code, select_test_videos video_folder listing getsize = Exit code <->
                code = 1%Z /\ forall f, In f listing -> is_test_video f = false) /\
  (forall e, select_test_videos video_folder listing getsize = Failed e ->
             exists v, In v (find_test_videos video_folder listing) /\
                       getsize v = Err e).
Proof.
  unfold select_test_videos, sort_by_size. split.
  - intros code. unfold find_test_videos.
    destruct (List.filter is_test_video listing) as [| f fs] eqn:Ef; cbn [map].
    + split.
      * intros H. inversion H. split; [reflexivity |].
        intros f Hf. destruct (is_test_video f) eqn:Et; [| reflexivity].
        assert (Hin : In f (List.filter is_test_video listing)) by (apply filter_In; auto).
        rewrite Ef in Hin. contradiction Hin.
      * intros [-> _]. reflexivity.
    + split.
      * intros H.
        destruct (keys_of getsize (Py.path_join video_folder f
                                   :: map (Py.path_join video_folder) fs));
          discriminate H.
      * intros [_ Hnone]. exfalso.
        assert (Hin : In f (List.filter is_test_video listing)) by (rewrite Ef; now left).
        apply filter_In in Hin. destruct Hin as [Hl Ht].
        rewrite (Hnone f Hl) in Ht. discriminate Ht.
  - intros e H.
    destruct (find_test_videos video_folder listing) as [| v vs]; [discriminate H |].
    destruct (keys_of getsize (v :: vs)) as [ks |] eqn:Ek; [discriminate H |].
    inversion H; subst. now apply keys_of_err.
Qed.

(** X17: the harness exits, with status 1, exactly when [os.listdir]
    returns a listing in which no file name ends in [.mp4] or [.MP4]; it
    fails with an exception before testing only when [os.listdir] raises
    it, or [os.path.getsize] raises it on one of the selected videos. *)
Theorem startup_without_videos
        (video_folder : string)
        (listdir : string -> result exn (list string))
        (getsize : string -> result exn Z) :
  (forall code, start_tests video_folder listdir getsize = Exit code <->
                code = 1%Z /\
                exists listing, listdir video_folder = Ok listing /\
                                forall f, In f listing -> is_test_video f = false) /\
  (forall e, start_tests video_folder listdir getsize = Failed e ->
             listdir video_folder = Err e \/
             exists listing v, listdir video_folder = Ok listing /\
                               In v (find_test_videos video_folder listing) /\
                               getsize v = Err e).
Proof.
  unfold start_tests.
  destruct (listdir video_folder) as [listing | e0].
  - destruct (select_without_videos video_folder listing getsize) as [Hexit Hfail].
    split.
    + intros code. rewrite Hexit. split.
      * intros [-> Hnone]. split; [reflexivity |]. now exists listing.
      * intros [-> (l & Hl & Hnone)]. inversion Hl; subst. now split.
    + intros e H. right. destruct (Hfail e H) as (v & Hin & Hv).
      now exists listing, v.
  - split.
    + intros code. split; [discriminate |].
      intros [_ (l & Hl & _)]. discriminate Hl.
    + intros e H. left. now inversion H.
Qed.

Lemma insert_by_key_stable (k : Z) (a : Z * string) (l : list (Z * string)) :
  List.filter (fun p => (fst p =? k)%Z) (insert_by_key a l)
  = List.filter (fun p => (fst p =? k)%Z) (a :: l).
Proof.
  induction l as [| b l IH]; [reflexivity |].
  cbn [insert_by_key]. destruct (fst b <? fst a)%Z eqn:E; [| reflexivity].
  apply Z.ltb_lt in E. cbn [List.filter] in *. rewrite IH.
  destruct (fst b =? k)%Z eqn:Eb; destruct (fst a =? k)%Z eqn:Ea; try reflexivity.
  apply Z.eqb_eq in Eb, Ea. lia.
Qed.

Lemma sort_by_key_stable (k : Z) (l : list (Z * string)) :
  List.filter (fun p => (fst p =? k)%Z) (sort_by_key l)
  = List.filter (fun p => (fst p =? k)%Z) l.
Proof.
  induction l as [| a l IH]; [reflexivity |].
  cbn [sort_by_key fold_right]. rewrite insert_by_key_stable.
  cbn [List.filter]. fold (sort_by_key l). now rewrite IH.
Qed.

Lemma filter_values_of_pairs (getsize : string -> result exn Z) (size : Z)
      (ps : list (Z * string)) :
  Forall (fun kx => getsize (snd kx) = Ok (fst kx)) ps ->
  List.filter (has_size getsize size) (map snd ps)
  = map snd (List.filter (fun p => (fst p =? size)%Z) ps).
Proof.
  induction 1 as [| p ps Hp _ IH]; [reflexivity |].
  cbn [map List.filter]. unfold has_size at 1. rewrite Hp.
  destruct (fst p =? size)%Z; cbn [map]; now rewrite IH.
Qed.

(** X19: the sort is stable: the selected videos of any one size stand in
    the order in which the folder listed them. *)
Theorem selected_videos_keep_listing_order
        (video_folder : string) (listing : list string)
        (getsize : string -> result exn Z) (test_videos : list string) (size : Z) :
  select_test_videos video_folder listing getsize = Testing test_videos ->
  List.filter (has_size getsize size) test_videos
  = List.filter (has_size getsize size) (find_test_videos video_folder listing).
Proof.
  unfold select_test_videos, sort_by_size. intros H.
  destruct (find_test_videos video_folder listing) as [| v vs]; [discriminate H |].
  destruct (keys_of getsize (v :: vs)) as [ks |] eqn:Ek; [| discriminate H].
  inversion H; subst; clear H.
  destruct (keys_of_ok _ _ _ Ek) as [Hm Hf].
  rewrite <- Hm.
  rewrite !filter_values_of_pairs; [| exact Hf |].
  - now rewrite sort_by_key_stable.
  - eapply Permutation_Forall; [| exact Hf]. symmetry. apply sort_by_key_perm.
Qed.

(** X19, on two videos of four bytes behind a larger one. *)
Lemma selected_videos_keep_listing_order_witness :
  let getsize := fun v : string =>
    if String.eqb v "v/big.mp4" then @Ok exn Z 9%Z else Ok 4%Z in
  select_test_videos "v" ["big.mp4"; "b.mp4"; "a.mp4"] getsize
  = Testing ["v/b.mp4"; "v/a.mp4"; "v/big.mp4"] /\
  List.filter (has_size getsize 4) ["v/b.mp4"; "v/a.mp4"; "v/big.mp4"]
  = List.filter (has_size getsize 4) (find_test_videos "v" ["big.mp4"; "b.mp4"; "a.mp4"]).
Proof.
  cbv zeta. split; [reflexivity |].
  apply (selected_videos_keep_listing_order "v" ["big.mp4"; "b.mp4"; "a.mp4"]).
  reflexivity.
Defined.

Lemma ends_with_sep_has_sep (a : string) :
  Py.ends_with_sep a = true -> Py.count_char "/" a <> 0.
Proof.
  induction a as [| d a IH]; [discriminate |].
  cbn [Py.ends_with_sep Py.count_char]. destruct a as [| d' a].
  - intros ->. discriminate.
  - intros H. specialize (IH H). lia.
Qed.

Lemma basename_after_dir (a f : string) :
  Py.count_char "/" f = 0 ->
  (String.length a =? 0) || Py.ends_with_sep a = true ->
  Py.basename (a ++ f) = f.
Proof.
  intros Hf. induction a as [| d a IH]; intros Ha.
  - now apply basename_of_name.
  - change (String d a ++ f) with (String d (a ++ f)). cbn [Py.basename].
    rewrite count_char_app, Hf, Nat.add_0_r.
    destruct a as [| d' a].
    + cbn in Ha. cbn. now rewrite Ha.
    + assert (Hend : Py.ends_with_sep (String d' a) = true) by exact Ha.
      pose proof (ends_with_sep_has_sep _ Hend) as Hn.
      apply Nat.eqb_neq in Hn. rewrite Hn. apply IH. now rewrite Hend.
Qed.

(** X20: a video found in the folder is uploaded under its bare file name:
    the base name of the path the harness joined is the listed name. *)
Theorem video_name_of_joined_path (video_folder f : string) :
  Py.count_char "/" f = 0 ->
  video_name (Py.path_join video_folder f) = f.
Proof.
  intros Hf. unfold video_name.
  rewrite path_join_relative by now apply no_sep_not_absolute.
  destruct ((String.length video_folder =? 0) || Py.ends_with_sep video_folder) eqn:E.
  - now apply basename_after_dir.
  - apply basename_after_dir; [exact Hf |].
    apply orb_true_iff. right.
    clear E. induction video_folder as [| d a IH]; [reflexivity |].
    destruct a; [reflexivity | exact IH].
Qed.

(** X20, for the default folder. *)
Lemma video_name_of_joined_path_witness :
  video_name (Py.path_join "./test_videos" "clip.mp4") = "clip.mp4".
Proof.
  apply (video_name_of_joined_path "./test_videos" "clip.mp4"). reflexivity.
Defined.

End HarnessProperties.
